(** * Scene-to-video rendering pipeline: a shallow embedding

    The development embeds [VideoService] (createVideo, createSegment,
    concatenateSegments, cleanupSegments) and [TTSService]
    (generateAudioForScenes, generateSpeech) of the backend services.

    JavaScript [async] functions become computations of the monad [Async]:
    a function from the state of the outside world to an outcome (a value
    the promise resolved with, or the error it rejected with) and the world
    afterwards.  The world keeps the set of files on disk and the log of
    the external actions performed so far.  The external collaborators
    (ffmpeg, the uuid generator, fs.stat, the two speech providers) are
    fields of an environment record; each of them may inspect the whole
    world, so that their answers can depend on the history of the run. *)

From stdpp Require Import gmap strings list pretty.
From Stdlib Require Import ZArith Sorted.

Local Open Scope Z_scope.
Local Open Scope string_scope.
Local Open Scope list_scope.

(** ** Data model *)

(** A scene of the script: [scene.id], [scene.duration], [scene.narration].
    Identifiers and durations are the integers the script generator emits. *)
Module Scene.
Record t := mk { id : Z; duration : Z; narration : string }.
End Scene.

(** [script.scenes] and the precomputed [script.totalDuration]. *)
Module Script.
Record t := mk { scenes : list Scene.t; totalDuration : Z }.
End Script.

(** An entry of the [images] array.  [path] is [None] when the property is
    null or undefined. *)
Module Image.
Record t := mk { sceneId : Z; path : option string; url : string }.
End Image.

(** An entry of the [audioFiles] array.  [silent] is [false] when the
    property is absent. *)
Module Audio.
Record t := mk { sceneId : Z; path : option string; duration : Z; silent : bool }.
End Audio.

(** The object createVideo returns. *)
Module VideoResult.
Record t := mk { videoId : string; path : string; url : string; size : Z; duration : Z }.
End VideoResult.

(** A thrown JavaScript [Error] with its message. *)
Inductive JsError := Error (message : string).

(** A fluent-ffmpeg command: its inputs with their input options, the
    output options and the path given to [save]. *)
Record FfmpegCommand := mkCommand {
  inputs : list (string * list string);
  outputOptions : list string;
  output : string
}.

(** The two speech providers of the TTS service. *)
Inductive Provider := ElevenLabs | GoogleTTS.

(** External actions, in the order they happen. *)
Inductive Event :=
| EvUuid (v : string)
| EvFfmpeg (cmd : FfmpegCommand) (err : option JsError)
| EvWriteFile (p content : string)
| EvUnlink (p : string)
| EvStat (p : string)
| EvWarnSkip (sceneId : Z)
| EvConsoleError (e : JsError)
| EvSpeech (pr : Provider) (text : string) (audioPath : string) (err : option JsError)
| EvDelay (ms : nat).

Record World := mkWorld { files : gset string; log : list Event }.

(** The collaborators outside the program.  [ffmpeg_run] and the speech
    providers answer [None] when the process ends well and [Some err] when
    it reports an error. *)
Record Env := mkEnv {
  uuidv4 : World → string;
  ffmpeg_run : World → FfmpegCommand → option JsError;
  stat_size : World → string → Z;
  elevenlabs_post : World → string → Z → option JsError;
  gtts_save : World → string → Z → option JsError
}.

#[global] Instance JsError_eq_dec : EqDecision JsError.
Proof. solve_decision. Defined.
#[global] Instance FfmpegCommand_eq_dec : EqDecision FfmpegCommand.
Proof. solve_decision. Defined.
#[global] Instance Provider_eq_dec : EqDecision Provider.
Proof. solve_decision. Defined.
#[global] Instance Event_eq_dec : EqDecision Event.
Proof. solve_decision. Defined.

(** ** The monad of asynchronous computations *)

Inductive Outcome (A : Type) :=
| Resolved (a : A)
| Rejected (e : JsError).
Arguments Resolved {A} a.
Arguments Rejected {A} e.

Definition Async (A : Type) : Type := World → Outcome A * World.

Definition ret {A} (a : A) : Async A := fun w => (Resolved a, w).

Definition throw {A} (e : JsError) : Async A := fun w => (Rejected e, w).

Definition bind {A B} (c : Async A) (k : A → Async B) : Async B :=
  fun w =>
    match c w with
    | (Resolved a, w1) => k a w1
    | (Rejected e, w1) => (Rejected e, w1)
    end.

(** [try { body } catch (e) { handler e }] *)
Definition try_catch {A} (body : Async A) (handler : JsError → Async A) : Async A :=
  fun w =>
    match body w with
    | (Resolved a, w1) => (Resolved a, w1)
    | (Rejected e, w1) => handler e w1
    end.

Declare Scope async_scope.
Delimit Scope async_scope with async.
Notation "x <- c ;; k" := (bind c (fun x => k))
  (at level 100, c at next level, right associativity) : async_scope.
Notation "c ;; k" := (bind c (fun _ => k))
  (at level 100, right associativity) : async_scope.
Local Open Scope async_scope.

(** ** Primitive actions *)

Definition emit (e : Event) : Async unit :=
  fun w => (Resolved tt, mkWorld (files w) (log w ++ [e])).

(** [path.join] of already normalised components. *)
Definition path_join (dir name : string) : string := dir +:+ "/" +:+ name.

(** [fsSync.existsSync] *)
Definition existsSync (p : string) : Async bool :=
  fun w => (Resolved (bool_decide (p ∈ files w)), w).

(** [fs.writeFile]: the file exists afterwards. *)
Definition writeFile (p content : string) : Async unit :=
  fun w => (Resolved tt, mkWorld ({[p]} ∪ files w) (log w ++ [EvWriteFile p content])).

(** [fs.unlink]: removes an existing file, rejects on a missing one. *)
Definition unlink (p : string) : Async unit :=
  fun w =>
    if bool_decide (p ∈ files w)
    then (Resolved tt, mkWorld (files w ∖ {[p]}) (log w ++ [EvUnlink p]))
    else (Rejected (Error "ENOENT"), mkWorld (files w) (log w ++ [EvUnlink p])).

(** [fs.stat(p)], of which only [size] is used. *)
Definition stat (env : Env) (p : string) : Async Z :=
  fun w =>
    if bool_decide (p ∈ files w)
    then (Resolved (stat_size env w p), mkWorld (files w) (log w ++ [EvStat p]))
    else (Rejected (Error "ENOENT"), mkWorld (files w) (log w ++ [EvStat p])).

(** Running an ffmpeg command through [save]: the 'end' handler fires and
    the output file exists, or the 'error' handler fires with the error of
    the process, which is taken to leave no output behind. *)
Definition save (env : Env) (cmd : FfmpegCommand) : Async unit :=
  fun w =>
    match ffmpeg_run env w cmd with
    | None => (Resolved tt, mkWorld ({[output cmd]} ∪ files w) (log w ++ [EvFfmpeg cmd None]))
    | Some err => (Rejected err, mkWorld (files w) (log w ++ [EvFfmpeg cmd (Some err)]))
    end.

(** [uuidv4()] *)
Definition fresh_uuid (env : Env) : Async string :=
  fun w => (Resolved (uuidv4 env w), mkWorld (files w) (log w ++ [EvUuid (uuidv4 env w)])).

(** Truthiness of a path property: neither null, undefined nor empty. *)
Definition truthy (p : option string) : bool :=
  match p with
  | Some s => negb (String.eqb s "")
  | None => false
  end.

(** ** VideoService *)

Record VideoService := mkVideoService { tempDir : string; outputDir : string }.

Section VideoService.
Variable this : VideoService.
Variable env : Env.

Definition segment_path (index : nat) : string :=
  path_join (path_join (tempDir this) "segments") ("segment_" +:+ pretty index +:+ ".mp4").

Definition scale_filter : string :=
  "scale=1920:1080:force_original_aspect_ratio=decrease,pad=1920:1080:(ow-iw)/2:(oh-ih)/2,setsar=1".

Definition image_input (scene : Scene.t) (imagePath : string) : string * list string :=
  (imagePath, ["-loop 1"; "-t " +:+ pretty (Scene.duration scene)]).

(** The command createSegment builds; [withAudio] is the value of
    [audioPath && fsSync.existsSync(audioPath)]. *)
Definition segment_command (scene : Scene.t) (imagePath : string)
    (audioPath : option string) (withAudio : bool) (index : nat) : FfmpegCommand :=
  if withAudio then
    mkCommand
      [image_input scene imagePath; (default "" audioPath, [])]
      ["-c:v libx264"; "-preset fast"; "-pix_fmt yuv420p";
       "-c:a aac"; "-b:a 128k"; "-ar 44100"; "-shortest";
       "-vf"; scale_filter]
      (segment_path index)
  else
    mkCommand
      [image_input scene imagePath]
      ["-c:v libx264"; "-preset fast"; "-pix_fmt yuv420p";
       "-vf"; scale_filter; "-an"]
      (segment_path index).

Definition createSegment (scene : Scene.t) (imagePath : string)
    (audioPath : option string) (index : nat) : Async string :=
  withAudio <- (if truthy audioPath then existsSync (default "" audioPath) else ret false) ;;
  save env (segment_command scene imagePath audioPath withAudio index) ;;
  ret (segment_path index).

Definition concatFilePath : string := path_join (tempDir this) "concat_list.txt".

(** [segments.map(seg => `file '${seg}'`).join('\n')] *)
Definition concat_line (seg : string) : string := "file '" +:+ seg +:+ "'".

Fixpoint join (sep : string) (l : list string) : string :=
  match l with
  | [] => ""
  | [s] => s
  | s :: rest => s +:+ sep +:+ join sep rest
  end.

Definition newline : string := String (Ascii.ascii_of_nat 10) EmptyString.

Definition concatContent (segments : list string) : string :=
  join newline (map concat_line segments).

Definition concat_command (outputPath : string) : FfmpegCommand :=
  mkCommand [(concatFilePath, ["-f concat"; "-safe 0"])] ["-c copy"] outputPath.

Definition concatenateSegments (segments : list string) (outputPath : string) : Async unit :=
  writeFile concatFilePath (concatContent segments) ;;
  save env (concat_command outputPath) ;;
  try_catch (unlink concatFilePath) (fun _ => ret tt).

(** [for (const segment of segments) try { unlink } catch { }] *)
Fixpoint cleanupSegments (segments : list string) : Async unit :=
  match segments with
  | [] => ret tt
  | segment :: rest =>
      try_catch (unlink segment) (fun _ => ret tt) ;;
      cleanupSegments rest
  end.

Definition find_image (images : list Image.t) (scene : Scene.t) : option Image.t :=
  find (fun img => Z.eqb (Image.sceneId img) (Scene.id scene)) images.

Definition find_audio (audioFiles : list Audio.t) (scene : Scene.t) : option Audio.t :=
  find (fun aud => Z.eqb (Audio.sceneId aud) (Scene.id scene)) audioFiles.

(** The body of the [for] loop of createVideo over the scenes that remain,
    [i] being the index of the first of them and [segments] the array
    pushed so far. *)
Fixpoint scene_loop (images : list Image.t) (audioFiles : list Audio.t)
    (rest : list Scene.t) (i : nat) (segments : list string) : Async (list string) :=
  match rest with
  | [] => ret segments
  | scene :: rest' =>
      let image := find_image images scene in
      let audio := find_audio audioFiles scene in
      if negb (truthy (image ≫= Image.path)) then
        emit (EvWarnSkip (Scene.id scene)) ;;
        scene_loop images audioFiles rest' (S i) segments
      else
        segmentPath <- createSegment scene (default "" (image ≫= Image.path))
                         (audio ≫= Audio.path) i ;;
        scene_loop images audioFiles rest' (S i) (segments ++ [segmentPath])
  end.

Definition output_path (videoId : string) : string :=
  path_join (outputDir this) (videoId +:+ ".mp4").

Definition createVideo (script : Script.t) (images : list Image.t)
    (audioFiles : list Audio.t) : Async VideoResult.t :=
  videoId <- fresh_uuid env ;;
  let outputPath := output_path videoId in
  try_catch
    (segments <- scene_loop images audioFiles (Script.scenes script) 0 [] ;;
     (if Nat.eqb (length segments) 0
      then throw (Error "No valid segments created")
      else ret tt) ;;
     concatenateSegments segments outputPath ;;
     size <- stat env outputPath ;;
     cleanupSegments segments ;;
     ret (VideoResult.mk videoId outputPath
            ("/api/videos/stream/" +:+ videoId) size (Script.totalDuration script)))
    (fun error => emit (EvConsoleError error) ;; throw error).

End VideoService.

(** ** TTSService *)

Record TTSService := mkTTSService { apiKey : option string; audioDir : string }.

Section TTSService.
Variable this : TTSService.
Variable env : Env.

Definition scene_audio_path (sceneId : Z) : string :=
  path_join (audioDir this) ("scene_" +:+ pretty sceneId +:+ ".mp3").

(** One call of a speech provider: the request together with the write of
    the audio file.  It resolves with the path of the file it saved or
    rejects with the provider's error. *)
Definition speak (pr : Provider) (text : string) (sceneId : Z) : Async string :=
  fun w =>
    let audioPath := scene_audio_path sceneId in
    let answer :=
      match pr with
      | ElevenLabs => elevenlabs_post env w text sceneId
      | GoogleTTS => gtts_save env w text sceneId
      end in
    match answer with
    | None => (Resolved audioPath,
               mkWorld ({[audioPath]} ∪ files w) (log w ++ [EvSpeech pr text audioPath None]))
    | Some err => (Rejected err,
                   mkWorld (files w) (log w ++ [EvSpeech pr text audioPath (Some err)]))
    end.

Definition generateWithElevenLabs := speak ElevenLabs.
Definition generateWithGoogleTTS := speak GoogleTTS.

Definition generateSpeech (text : string) (sceneId : Z) : Async string :=
  if truthy (apiKey this) then
    try_catch (generateWithElevenLabs text sceneId)
              (fun _ => generateWithGoogleTTS text sceneId)
  else
    generateWithGoogleTTS text sceneId.

Definition delay (ms : nat) : Async unit := emit (EvDelay ms).

Definition audio_record (scene : Scene.t) (audioPath : string) : Audio.t :=
  Audio.mk (Scene.id scene) (Some audioPath) (Scene.duration scene) false.

Definition silent_record (scene : Scene.t) : Audio.t :=
  Audio.mk (Scene.id scene) None (Scene.duration scene) true.

(** The [for ... of] loop of generateAudioForScenes over the scenes that
    remain, [audioFiles] being the array pushed so far. *)
Fixpoint audio_loop (rest : list Scene.t) (audioFiles : list Audio.t)
    : Async (list Audio.t) :=
  match rest with
  | [] => ret audioFiles
  | scene :: rest' =>
      audioFiles' <-
        try_catch
          (audioPath <- generateSpeech (Scene.narration scene) (Scene.id scene) ;;
           ret (audioFiles ++ [audio_record scene audioPath]))
          (fun _ => ret (audioFiles ++ [silent_record scene])) ;;
      delay 500 ;;
      audio_loop rest' audioFiles'
  end.

Definition generateAudioForScenes (script : Script.t) : Async (list Audio.t) :=
  audio_loop (Script.scenes script) [].

End TTSService.

(** ** The events of a run and their effect on the file system *)

(** What one external action does to the set of files. *)
Definition apply_event (fs : gset string) (e : Event) : gset string :=
  match e with
  | EvFfmpeg cmd None => {[output cmd]} ∪ fs
  | EvWriteFile p _ => {[p]} ∪ fs
  | EvUnlink p => fs ∖ {[p]}
  | EvSpeech _ _ audioPath None => {[audioPath]} ∪ fs
  | _ => fs
  end.

Definition replay (fs : gset string) (evs : list Event) : gset string :=
  foldl apply_event fs evs.

(** The world [w] after the actions [evs]. *)
Definition extend (w : World) (evs : list Event) : World :=
  mkWorld (replay (files w) evs) (log w ++ evs).

(** The actions that happened between the worlds [w] and [w']. *)
Definition run_events (w w' : World) : list Event :=
  drop (length (log w)) (log w').

Definition is_unlink (e : Event) : bool :=
  match e with EvUnlink _ => true | _ => false end.

Definition is_resolved {A} (o : Outcome A) : bool :=
  match o with Resolved _ => true | Rejected _ => false end.

(** ** Notions the statements are phrased with *)

(** The scene has a usable image: [image?.path] is truthy. *)
Definition has_image (images : list Image.t) (scene : Scene.t) : bool :=
  truthy (find_image images scene ≫= Image.path).

(** Positions, counted from [i], of the scenes that have a usable image. *)
Fixpoint encoded_indices (images : list Image.t) (rest : list Scene.t) (i : nat) : list nat :=
  match rest with
  | [] => []
  | scene :: rest' =>
      if has_image images scene
      then i :: encoded_indices images rest' (S i)
      else encoded_indices images rest' (S i)
  end.

Definition sum_durations (l : list Scene.t) : Z :=
  foldr (fun scene acc => Scene.duration scene + acc) 0 l.

(** Sum of the durations of the scenes that get a segment in a run in
    which every encoding succeeds. *)
Definition rendered_duration (images : list Image.t) (script : Script.t) : Z :=
  sum_durations (filter (fun scene => has_image images scene = true) (Script.scenes script)).

(** The inputs of an ffmpeg command that can supply sound: those that are
    not a still image shown in a loop. *)
Definition audio_inputs (cmd : FfmpegCommand) : list string :=
  map fst (filter (fun input => "-loop 1" ∉ snd input) (inputs cmd)).

(** An ffmpeg command yields an audio stream when audio is not switched off
    and an input besides the still image supplies it. *)
Definition carries_audio (cmd : FfmpegCommand) : bool :=
  negb (bool_decide ("-an" ∈ outputOptions cmd)) && bool_decide (audio_inputs cmd ≠ []).

Definition audio_options : list string :=
  ["-c:a aac"; "-b:a 128k"; "-ar 44100"; "-shortest"; "-an"].

(** The output options that govern the video stream. *)
Definition video_options (cmd : FfmpegCommand) : list string :=
  filter (fun o => o ∉ audio_options) (outputOptions cmd).

(** The path an action writes to. *)
Definition written (e : Event) : option string :=
  match e with
  | EvFfmpeg cmd _ => Some (output cmd)
  | EvWriteFile p _ => Some p
  | _ => None
  end.

(** The temporary paths a run of createVideo with identifier [videoId]
    writes to: everything it writes except its output file. *)
Definition temp_paths (this : VideoService) (videoId : string) (evs : list Event) : list string :=
  filter (fun p => p ≠ output_path this videoId) (omap written evs).

(** [cmd] is the command createSegment builds for position [k]. *)
Definition encodes (this : VideoService) (cmd : FfmpegCommand) (k : nat) : Prop :=
  ∃ scene imagePath audioPath withAudio,
    cmd = segment_command this scene imagePath audioPath withAudio k.

(** The command of a run of ffmpeg that ended well. *)
Definition encoded_by (e : Event) : option FfmpegCommand :=
  match e with
  | EvFfmpeg cmd None => Some cmd
  | _ => None
  end.

(** [cmd] renders the scene at position [k] of [scenes] into the segment of
    that position: its first input is the image found for that scene, shown
    for the duration of the scene; it has no further input but the audio
    file found for that scene, and it has that one whenever the file is
    among [present]. *)
Definition renders (this : VideoService) (scenes : list Scene.t) (images : list Image.t)
    (audioFiles : list Audio.t) (present : gset string) (k : nat) (cmd : FfmpegCommand) : Prop :=
  ∃ scene imagePath,
    scenes !! k = Some scene ∧
    find_image images scene ≫= Image.path = Some imagePath ∧
    output cmd = segment_path this k ∧
    head (inputs cmd) = Some (imagePath, ["-loop 1"; "-t " +:+ pretty (Scene.duration scene)]) ∧
    (∀ input, input ∈ tail (inputs cmd) →
       ∃ a, input = (a, []) ∧ find_audio audioFiles scene ≫= Audio.path = Some a) ∧
    (∀ a, find_audio audioFiles scene ≫= Audio.path = Some a → a ≠ "" → a ∈ present →
       inputs cmd =
         [(imagePath, ["-loop 1"; "-t " +:+ pretty (Scene.duration scene)]); (a, [])]).

(** The events the scene loop may add: a warning for a skipped scene or the
    run of the segment command of one of the positions [idxs]. *)
Definition segment_event (this : VideoService) (idxs : list nat) (e : Event) : Prop :=
  match e with
  | EvWarnSkip _ => True
  | EvFfmpeg cmd _ => ∃ k, k ∈ idxs ∧ encodes this cmd k
  | _ => False
  end.

(** Each of the positions [idxs] has its segment written by a successful
    ffmpeg run among [evs]. *)
Definition all_encoded (this : VideoService) (idxs : list nat) (evs : list Event) : Prop :=
  ∀ k, k ∈ idxs → ∃ cmd, EvFfmpeg cmd None ∈ evs ∧ output cmd = segment_path this k.

Definition no_segments_error : JsError := Error "No valid segments created".

(** The four ways a run of createVideo ends, with the events it adds after
    the allocation of its identifier [videoId]: [evs] are those of the
    scene loop. *)
Inductive video_run (this : VideoService) (script : Script.t) (images : list Image.t)
    (videoId : string) : Outcome VideoResult.t → list Event → Prop :=
| run_encode_failed evs cmd e :
    Forall (segment_event this (encoded_indices images (Script.scenes script) 0)) evs →
    Forall (fun ev => is_unlink ev = false) evs →
    (∃ k, k ∈ encoded_indices images (Script.scenes script) 0 ∧ encodes this cmd k) →
    video_run this script images videoId (Rejected e)
      (EvUuid videoId :: evs ++ [EvFfmpeg cmd (Some e); EvConsoleError e])
| run_no_segments evs :
    encoded_indices images (Script.scenes script) 0 = [] →
    evs = map (fun scene => EvWarnSkip (Scene.id scene)) (Script.scenes script) →
    video_run this script images videoId (Rejected no_segments_error)
      (EvUuid videoId :: evs ++ [EvConsoleError no_segments_error])
| run_concat_failed evs e :
    encoded_indices images (Script.scenes script) 0 ≠ [] →
    Forall (segment_event this (encoded_indices images (Script.scenes script) 0)) evs →
    Forall (fun ev => is_unlink ev = false) evs →
    all_encoded this (encoded_indices images (Script.scenes script) 0) evs →
    video_run this script images videoId (Rejected e)
      (EvUuid videoId :: evs ++
         [EvWriteFile (concatFilePath this)
            (concatContent (map (segment_path this) (encoded_indices images (Script.scenes script) 0)));
          EvFfmpeg (concat_command this (output_path this videoId)) (Some e);
          EvConsoleError e])
| run_done evs size :
    encoded_indices images (Script.scenes script) 0 ≠ [] →
    Forall (segment_event this (encoded_indices images (Script.scenes script) 0)) evs →
    Forall (fun ev => is_unlink ev = false) evs →
    all_encoded this (encoded_indices images (Script.scenes script) 0) evs →
    video_run this script images videoId
      (Resolved (VideoResult.mk videoId (output_path this videoId)
                   ("/api/videos/stream/" +:+ videoId) size (Script.totalDuration script)))
      (EvUuid videoId :: evs ++
         [EvWriteFile (concatFilePath this)
            (concatContent (map (segment_path this) (encoded_indices images (Script.scenes script) 0)));
          EvFfmpeg (concat_command this (output_path this videoId)) None;
          EvUnlink (concatFilePath this);
          EvStat (output_path this videoId)] ++
         map EvUnlink (map (segment_path this) (encoded_indices images (Script.scenes script) 0))).

(** The last character of a string. *)
Fixpoint last_char (s : string) : option Ascii.ascii :=
  match s with
  | EmptyString => None
  | String c EmptyString => Some c
  | String _ rest => last_char rest
  end.

(** What generateAudioForScenes does for one scene: the record it pushes
    and the world after the pause that follows. *)
Definition audio_step (this : TTSService) (env : Env) (scene : Scene.t) (w : World)
    : Audio.t * World :=
  match generateSpeech this env (Scene.narration scene) (Scene.id scene) w with
  | (Resolved audioPath, w1) => (audio_record scene audioPath, extend w1 [EvDelay 500])
  | (Rejected _, w1) => (silent_record scene, extend w1 [EvDelay 500])
  end.

(** The records pushed for a list of scenes and the world at the end. *)
Fixpoint audio_records (this : TTSService) (env : Env) (rest : list Scene.t) (w : World)
    : list Audio.t :=
  match rest with
  | [] => []
  | scene :: rest' =>
      fst (audio_step this env scene w)
        :: audio_records this env rest' (snd (audio_step this env scene w))
  end.

Fixpoint audio_world (this : TTSService) (env : Env) (rest : list Scene.t) (w : World) : World :=
  match rest with
  | [] => w
  | scene :: rest' => audio_world this env rest' (snd (audio_step this env scene w))
  end.

(** ** Concrete runs *)

Module Demo.

Definition svc : VideoService := mkVideoService "/app/temp" "/app/output/videos".

Definition tts : TTSService := mkTTSService (Some "sk-key") "/app/temp/audio".

Definition ffmpeg_error : JsError := Error "ffmpeg exited with code 1".

Definition speech_error : JsError := Error "Request failed with status code 429".

(** Every collaborator succeeds; the run identifier is [uuid]. *)
Definition env_ok (uuid : string) : Env :=
  mkEnv (fun _ => uuid) (fun _ _ => None) (fun _ _ => 1024)
        (fun _ _ _ => None) (fun _ _ _ => None).

(** ffmpeg fails on the command that writes [target] and on no other. *)
Definition env_failing (target : string) : Env :=
  mkEnv (fun _ => "run-a")
        (fun _ cmd => if String.eqb (output cmd) target then Some ffmpeg_error else None)
        (fun _ _ => 1024) (fun _ _ _ => None) (fun _ _ _ => None).

(** Both speech providers fail for scene 2 and work for the others. *)
Definition env_speech_down : Env :=
  mkEnv (fun _ => "run-a") (fun _ _ => None) (fun _ _ => 1024)
        (fun _ _ sceneId => if Z.eqb sceneId 2 then Some speech_error else None)
        (fun _ _ sceneId => if Z.eqb sceneId 2 then Some speech_error else None).

Definition w0 : World := mkWorld ∅ [].

Definition scene1 : Scene.t := Scene.mk 1 30 "Welcome to the lesson".
Definition scene2 : Scene.t := Scene.mk 2 45 "The main idea".

Definition script2 : Script.t := Script.mk [scene1; scene2] 75.
Definition script1 : Script.t := Script.mk [scene1] 30.
Definition script0 : Script.t := Script.mk [] 0.

Definition image1 : Image.t :=
  Image.mk 1 (Some "/app/temp/images/scene_1.png") "file:///app/temp/images/scene_1.png".
Definition image2 : Image.t :=
  Image.mk 2 (Some "/app/temp/images/scene_2.png") "file:///app/temp/images/scene_2.png".

(** Scene 1 rendered without narration. *)
Definition silent_command1 : FfmpegCommand :=
  mkCommand
    [("/app/temp/images/scene_1.png", ["-loop 1"; "-t 30"])]
    ["-c:v libx264"; "-preset fast"; "-pix_fmt yuv420p"; "-vf"; scale_filter; "-an"]
    "/app/temp/segments/segment_0.mp4".

Definition result_a : VideoResult.t :=
  VideoResult.mk "run-a" "/app/output/videos/run-a.mp4" "/api/videos/stream/run-a" 1024 75.

(** A run in which everything succeeds, and runs in which ffmpeg fails
    on the first segment or on the concatenation. *)
Definition images12 : list Image.t := [image1; image2].

Definition run_ok : Outcome VideoResult.t * World :=
  createVideo svc (env_ok "run-a") script2 images12 [] w0.

Definition run_ok_b : Outcome VideoResult.t * World :=
  createVideo svc (env_ok "run-b") script2 images12 [] w0.

Definition run_concat_fails : Outcome VideoResult.t * World :=
  createVideo svc (env_failing "/app/output/videos/run-a.mp4") script2 images12 [] w0.

(** A script of three scenes of which the second has no image and the
    third has narration audio on disk. *)
Definition scene3 : Scene.t := Scene.mk 3 20 "To sum up".

Definition script3 : Script.t := Script.mk [scene1; scene2; scene3] 95.

Definition image3 : Image.t :=
  Image.mk 3 (Some "/app/temp/images/scene_3.png") "file:///app/temp/images/scene_3.png".

Definition images13 : list Image.t := [image1; image3].

Definition audio3 : Audio.t := Audio.mk 3 (Some "/app/temp/audio/scene_3.mp3") 20 false.

Definition w_audio : World := mkWorld {["/app/temp/audio/scene_3.mp3"]} [].

Definition run_skip : Outcome VideoResult.t * World :=
  createVideo svc (env_ok "run-a") script3 images13 [audio3] w_audio.

End Demo.

(** ** The rest of the services *)

(** [getVideoUrl] of VideoService. *)
Definition getVideoUrl (videoId : string) : string := "/api/videos/stream/" +:+ videoId.

(** [cleanup] of TTSService: the audio files with a path are unlinked,
    errors being ignored. *)
Fixpoint TTSService_cleanup (audioFiles : list Audio.t) : Async unit :=
  match audioFiles with
  | [] => ret tt
  | audio :: rest =>
      (if truthy (Audio.path audio)
       then try_catch (unlink (default "" (Audio.path audio))) (fun _ => ret tt)
       else ret tt) ;;
      TTSService_cleanup rest
  end.

(** *** ImageService *)

Record ImageService := mkImageService { imageDir : string }.

(** The canvas library: drawing the template of a scene yields the PNG
    buffer or throws. *)
Record Canvas := mkCanvas { draw_template : World → Scene.t → JsError + string }.

Section ImageService.
Variable this : ImageService.
Variable canvas : Canvas.

Definition scene_image_path (sceneId : Z) : string :=
  path_join (imageDir this) ("scene_" +:+ pretty sceneId +:+ ".png").

(** generateTemplateImage: the template is drawn and the buffer written to
    the image file of the scene. *)
Definition generateTemplateImage (scene : Scene.t) : Async string :=
  fun w =>
    match draw_template canvas w scene with
    | inr buffer => bind (writeFile (scene_image_path (Scene.id scene)) buffer)
                         (fun _ => ret (scene_image_path (Scene.id scene))) w
    | inl err => (Rejected err, w)
    end.

Definition generateSingleImage (scene : Scene.t) : Async string :=
  generateTemplateImage scene.

Definition image_record (scene : Scene.t) (imagePath : string) : Image.t :=
  Image.mk (Scene.id scene) (Some imagePath) ("file://" +:+ imagePath).

(** The [for ... of] loop of generateSceneImages over the scenes that
    remain, [images] being the array pushed so far. *)
Fixpoint image_loop (rest : list Scene.t) (images : list Image.t) : Async (list Image.t) :=
  match rest with
  | [] => ret images
  | scene :: rest' =>
      images' <-
        try_catch
          (imagePath <- generateSingleImage scene ;;
           ret (images ++ [image_record scene imagePath]))
          (fun error =>
             emit (EvConsoleError error) ;;
             fallbackPath <- generateTemplateImage scene ;;
             ret (images ++ [image_record scene fallbackPath])) ;;
      emit (EvDelay 500) ;;
      image_loop rest' images'
  end.

Definition generateSceneImages (script : Script.t) : Async (list Image.t) :=
  image_loop (Script.scenes script) [].

End ImageService.

(** [cleanup] of ImageService: every image file is unlinked, errors being
    caught; unlinking an undefined path throws at once and is caught as
    well. *)
Fixpoint ImageService_cleanup (images : list Image.t) : Async unit :=
  match images with
  | [] => ret tt
  | image :: rest =>
      match Image.path image with
      | Some p => try_catch (unlink p) (fun _ => ret tt)
      | None => ret tt
      end ;;
      ImageService_cleanup rest
  end.

(** *** Notions for the statements about these functions *)

(** The scene a warning reports as skipped. *)
Definition skipped_scene (e : Event) : option Z :=
  match e with EvWarnSkip sceneId => Some sceneId | _ => None end.

(** The file a successful ffmpeg run wrote. *)
Definition encoded_file (e : Event) : option string :=
  match e with EvFfmpeg cmd None => Some (output cmd) | _ => None end.

(** The provider a speech request went to. *)
Definition speech_call (e : Event) : option Provider :=
  match e with EvSpeech pr _ _ _ => Some pr | _ => None end.

(** The paths an array of audio records or images points to. *)
Definition audio_paths (audioFiles : list Audio.t) : list string :=
  omap (fun audio => if truthy (Audio.path audio) then Audio.path audio else None) audioFiles.

Definition image_paths (images : list Image.t) : list string := omap Image.path images.

(** *** Concrete services for the statements about these functions *)

Module Sample.

Definition images : ImageService := mkImageService "/app/temp/images".

(** Every template can be drawn. *)
Definition canvas_ok : Canvas := mkCanvas (fun _ _ => inr "PNG").

Definition draw_error : JsError := Error "Cannot read properties of undefined".

(** The template of scene 2 cannot be drawn. *)
Definition canvas_broken : Canvas :=
  mkCanvas (fun _ scene => if Z.eqb (Scene.id scene) 2 then inl draw_error else inr "PNG").

End Sample.

(** *** AIService *)

(** A scene as the script generator writes it: the fields the video and the
    speech service read, and the two the image templates use. *)
Module VisualScene.
Record t := mk { scene : Scene.t; visualDescription : string; visualType : string }.
End VisualScene.

(** The fields of the research data that script creation reads. *)
Module Research.
Record t := mk { topic : string; overview : string; keyPoints : list string }.
End Research.

Module Generated.
Record t := mk { title : string; scenes : list VisualScene.t; totalDuration : Z }.
End Generated.

(** The script as createVideo and generateAudioForScenes read it. *)
Definition script_of (g : Generated.t) : Script.t :=
  Script.mk (map VisualScene.scene (Generated.scenes g)) (Generated.totalDuration g).

Definition dquote : string := String (Ascii.ascii_of_nat 34) EmptyString.

(** simulateResearch, without the time stamp, the difficulty and the
    examples, which script creation does not read. *)
Definition simulateResearch (topic : string) : Research.t :=
  Research.mk topic
    (topic +:+ " is an important subject that encompasses various concepts and applications. This educational video will cover the fundamental principles and real-world relevance of " +:+ topic +:+ ".")
    ["Introduction to " +:+ topic +:+ " fundamentals";
     "Core principles and theories of " +:+ topic;
     "Practical applications in real world";
     "Advanced concepts and techniques";
     "Future trends and developments in " +:+ topic].

(** The scene simulateScript makes of the key point at index [idx]. *)
Definition key_point_scene (idx : nat) (point : string) : VisualScene.t :=
  VisualScene.mk
    (Scene.mk (Z.of_nat idx + 2) 45
       ("Let's understand " +:+ point +:+ ". This concept is crucial for grasping the fundamentals and will help you apply this knowledge effectively."))
    ("Diagram or infographic showing " +:+ point +:+ " with clear visual elements and annotations")
    (if Nat.even idx then "diagram" else "concept").

Definition simulateScript (researchData : Research.t) : Generated.t :=
  Generated.mk (Research.topic researchData)
    ([VisualScene.mk
        (Scene.mk 1 30
           ("Welcome! Today we're exploring " +:+ Research.topic researchData +:+ ". Get ready to learn something amazing!"))
        ("Title screen with " +:+ dquote +:+ Research.topic researchData +:+ dquote +:+ " in bold, modern typography with educational graphics")
        "title"]
     ++ imap key_point_scene (take 5 (Research.keyPoints researchData))
     ++ [VisualScene.mk
           (Scene.mk 7 30
              ("That wraps up our lesson on " +:+ Research.topic researchData +:+ ". Remember these key concepts and keep learning!"))
           "Summary screen with key takeaways and call to action"
           "summary"])
    (30 + 45 * 5 + 30).

(** [script.scenes.reduce((sum, scene) => sum + (scene.duration || 30), 0)]:
    a duration of 0 is falsy and counts as 30. *)
Definition reduce_total (scenes : list VisualScene.t) : Z :=
  foldl (fun sum vs =>
           sum + (if Z.eqb (Scene.duration (VisualScene.scene vs)) 0
                  then 30 else Scene.duration (VisualScene.scene vs)))
        0 scenes.

(** createScript.  [genAI] tells whether the model client exists; [reply]
    is the title and the scenes parsed from the reply of the model, or
    [None] when the request or the parsing of its reply throws. *)
Definition createScript (genAI : bool) (reply : option (string * list VisualScene.t))
    (researchData : Research.t) : Generated.t :=
  if negb genAI then simulateScript researchData
  else
    match reply with
    | Some (title, scenes) => Generated.mk title scenes (reduce_total scenes)
    | None => simulateScript researchData
    end.

(** The characters ".", "0" and " ". *)
Definition dot : Ascii.ascii := Ascii.ascii_of_nat 46.
Definition zero_char : Ascii.ascii := Ascii.ascii_of_nat 48.
Definition space : Ascii.ascii := Ascii.ascii_of_nat 32.

(** [s.split(sep)] for a separator of one character. *)
Fixpoint split (sep : Ascii.ascii) (s : string) : list string :=
  match s with
  | EmptyString => [EmptyString]
  | String c rest =>
      if Ascii.eqb c sep then EmptyString :: split sep rest
      else match split sep rest with
           | piece :: pieces => String c piece :: pieces
           | [] => [String c EmptyString]
           end
  end.

(** The number of times the character [c] occurs in [s]. *)
Fixpoint occurrences (c : Ascii.ascii) (s : string) : nat :=
  match s with
  | EmptyString => 0
  | String c' rest => ((if Ascii.eqb c' c then 1 else 0) + occurrences c rest)%nat
  end.

(** The result of content analysis. *)
Module Analysis.
Record t := mk {
  topics : list string;
  keyPoints : list string;
  difficulty : string;
  suggestedDuration : Z;
  wordCount : nat
}.
End Analysis.

Section ScriptFromContent.
(** The string primitives of JavaScript that simulateScriptFromContent
    uses: [s.trim()], [s.length] and [s.substring(0, n)]. *)
Variable trim : string → string.
Variable js_length : string → nat.
Variable substring : nat → string → string.

(** [content.split('.').filter(s => s.trim().length > 20)] *)
Definition sentences_of (content : string) : list string :=
  filter (fun s => (20 < js_length (trim s))%nat) (split dot content).

Definition sentence_scene (count : nat) (idx : nat) (sentence : string) : VisualScene.t :=
  VisualScene.mk
    (Scene.mk (Z.of_nat idx + 1) 30 (trim sentence))
    ("Visual representation illustrating: " +:+ substring 50 sentence +:+ "...")
    (if Nat.eqb idx 0 then "title"
     else if Nat.eqb idx (count - 1) then "summary" else "concept").

Definition simulateScriptFromContent (content : string) : Generated.t :=
  let sentences := sentences_of content in
  Generated.mk "Educational Content Video"
    (imap (sentence_scene (length sentences)) (take 6 sentences))
    (Z.min (Z.of_nat (length sentences)) 6 * 30).

Definition simulateAnalysis (content : string) : Analysis.t :=
  let words := split space content in
  let sentences := sentences_of content in
  Analysis.mk
    ["Main Topic"; "Supporting Concepts"; "Applications"]
    (map trim (take 5 sentences))
    "medium"
    (Z.min (Z.of_nat (length words) * 2) 300)
    (length words).

End ScriptFromContent.

(** *** Helpers of the server *)

(** [s.padStart(targetLength, c)] for a filler of one character. *)
Definition padStart (targetLength : nat) (c : Ascii.ascii) (s : string) : string :=
  Nat.iter (targetLength - String.length s) (String c) s.

(** calculateDuration, on a whole number of seconds below 2^53 in absolute
    value: [Math.floor] of the quotient and the remainder of [%], which has
    the sign of the dividend.  On these the arithmetic of JavaScript numbers
    gives the exact quotient and remainder, and both are printed in decimal
    notation; larger numbers and fractions of a second are outside the
    model. *)
Definition calculateDuration (seconds : Z) : string :=
  pretty (seconds / 60) +:+ ":" +:+ padStart 2 zero_char (pretty (Z.rem seconds 60)).

(** *** Text wrapping of the image templates *)

Definition maxLines : nat := 4.

Section WrapText.
(** [too_wide line] is [ctx.measureText(line).width > maxWidth] for the
    font of the template; [substring n s] is [s.substring(0, n)]. *)
Variable too_wide : string → bool.
Variable substring : nat → string → string.
Variable lineHeight : Z.

(** The [for] loop of wrapTextModern over the words that remain, [n] being
    the index of the first of them.  It yields the calls of [fillText] it
    makes, each with its text and its height, and the values of [line],
    [lineY] and [lineCount] it ends with. *)
Fixpoint wrap_loop (words : list string) (n : nat) (line : string) (lineY : Z)
    (lineCount : nat) : list (string * Z) * (string * Z * nat) :=
  match words with
  | [] => ([], (line, lineY, lineCount))
  | word :: rest =>
      if (lineCount <? maxLines)%nat then
        let testLine := line +:+ word +:+ " " in
        if too_wide testLine && negb (Nat.eqb n 0) then
          let '(drawn, final) :=
            wrap_loop rest (S n) (word +:+ " ") (lineY + lineHeight) (S lineCount) in
          ((line, lineY) :: drawn, final)
        else wrap_loop rest (S n) testLine lineY lineCount
      else ([], (line, lineY, lineCount))
  end.

(** wrapTextModern: the calls of [fillText] it makes, in order. *)
Definition wrapTextModern (text : string) (y : Z) : list (string * Z) :=
  let words := split space (substring 250 text) in
  let '(drawn, (line, lineY, lineCount)) := wrap_loop words 0 "" y 0 in
  if (lineCount <? maxLines)%nat then drawn ++ [(line, lineY)] else drawn.

End WrapText.

(** The words of a text, each followed by a space, one after the other. *)
Definition spaced (words : list string) : string :=
  foldr (fun word acc => word +:+ " " +:+ acc) "" words.

(** The texts of a list of calls of [fillText], one after the other. *)
Definition drawn_text (calls : list (string * Z)) : string :=
  foldr (fun call acc => fst call +:+ acc) "" calls.

(** *** The streaming and download routes of the server *)

(** A JavaScript number that is a whole number or NaN ([None]).  Whole
    numbers are exact below 2^53, which bounds the file sizes and byte
    positions the statements are about. *)
Definition Num : Type := option Z.

Definition num_sub (a b : Num) : Num :=
  match a, b with Some x, Some y => Some (x - y) | _, _ => None end.

Definition num_add (a b : Num) : Num :=
  match a, b with Some x, Some y => Some (x + y) | _, _ => None end.

(** The text of a number in a template literal or a header. *)
Definition num_text (a : Num) : string :=
  match a with Some x => pretty x | None => "NaN" end.

Definition dash : Ascii.ascii := Ascii.ascii_of_nat 45.
Definition plus_char : Ascii.ascii := Ascii.ascii_of_nat 43.

Definition is_digit (c : Ascii.ascii) : bool :=
  (48 <=? Ascii.nat_of_ascii c)%nat && (Ascii.nat_of_ascii c <=? 57)%nat.

Definition digit_value (c : Ascii.ascii) : Z := Z.of_nat (Ascii.nat_of_ascii c - 48).

(** White space of a header value read as Latin-1: tab, line feed,
    vertical tab, form feed, carriage return, space and no-break space. *)
Definition is_space (c : Ascii.ascii) : bool :=
  let n := Ascii.nat_of_ascii c in
  ((9 <=? n)%nat && (n <=? 13)%nat) || Nat.eqb n 32 || Nat.eqb n 160.

Fixpoint skip_spaces (s : string) : string :=
  match s with
  | String c rest => if is_space c then skip_spaces rest else s
  | EmptyString => s
  end.

(** The value of the longest prefix of decimal digits, after [acc]. *)
Fixpoint parse_digits (acc : Z) (s : string) : Z :=
  match s with
  | String c rest => if is_digit c then parse_digits (acc * 10 + digit_value c) rest else acc
  | EmptyString => acc
  end.

Fixpoint all_digits (s : string) : bool :=
  match s with
  | String c rest => is_digit c && all_digits rest
  | EmptyString => true
  end.

Definition starts_with_digit (s : string) : bool :=
  match s with String c _ => is_digit c | EmptyString => false end.

(** [parseInt(s, 10)]: leading white space and a sign are skipped, the
    digits that follow are read, and without a digit the result is NaN. *)
Definition parseInt (s : string) : Num :=
  let unsigned (sign : Z) (digits : string) : Num :=
    if starts_with_digit digits then Some (sign * parse_digits 0 digits) else None in
  match skip_spaces s with
  | String c rest =>
      if Ascii.eqb c dash then unsigned (-1) rest
      else if Ascii.eqb c plus_char then unsigned 1 rest
      else unsigned 1 (String c rest)
  | EmptyString => None
  end.

Fixpoint is_prefix (pat s : string) : bool :=
  match pat, s with
  | EmptyString, _ => true
  | String a pat', String b s' => Ascii.eqb a b && is_prefix pat' s'
  | String _ _, EmptyString => false
  end.

Fixpoint drop_chars (n : nat) (s : string) : string :=
  match n, s with
  | S n', String _ rest => drop_chars n' rest
  | _, _ => s
  end.

(** [s.replace(/pat/, '')] for a pattern without special characters: the
    first occurrence of [pat] is taken out. *)
Fixpoint remove_first (pat s : string) : string :=
  if is_prefix pat s then drop_chars (String.length pat) s
  else match s with
       | String c rest => String c (remove_first pat rest)
       | EmptyString => EmptyString
       end.

(** The bounds the streaming route reads from a Range header. *)
Definition parse_range (range : string) (fileSize : Z) : Num * Num :=
  let parts := split dash (remove_first "bytes=" range) in
  let start := parseInt (nth 0 parts "") in
  let end_ :=
    if truthy (nth_error parts 1) then parseInt (nth 1 parts "") else Some (fileSize - 1) in
  (start, end_).

Inductive Body :=
| JsonError (error : string)
| FileStream (filePath : string) (range : option (Num * Num))
| Download (filePath filename : string).

Record Response := mkResponse {
  status : nat;
  headers : list (string * string);
  body : Body
}.

Record Server := mkServer { videosDir : string }.

(** What the routes ask of the file system: the size [statSync] reports
    and whether [createReadStream] accepts the bounds it is given or
    throws. *)
Record FileSystem := mkFileSystem {
  file_size : World → string → Z;
  stream_opens : World → string → Num * Num → bool
}.

Section Routes.
Variable server : Server.
Variable fsys : FileSystem.

(** The file the routes serve for an identifier without a slash. *)
Definition video_file (videoId : string) : string :=
  path_join (videosDir server) (videoId +:+ ".mp4").

Definition not_found : Response := mkResponse 404 [] (JsonError "Video not found").

(** The answer of the error middleware to an exception in a route. *)
Definition internal_error : Response := mkResponse 500 [] (JsonError "Internal server error").

(** GET /api/videos/stream/:videoId with the Range header [range]. *)
Definition stream_video (w : World) (videoId : string) (range : option string) : Response :=
  let videoPath := video_file videoId in
  if negb (bool_decide (videoPath ∈ files w)) then not_found
  else
    let fileSize := file_size fsys w videoPath in
    if truthy range then
      let '(start, end_) := parse_range (default "" range) fileSize in
      let chunksize := num_add (num_sub end_ start) (Some 1) in
      if stream_opens fsys w videoPath (start, end_) then
        mkResponse 206
          [("Content-Range",
            "bytes " +:+ num_text start +:+ "-" +:+ num_text end_ +:+ "/" +:+ pretty fileSize);
           ("Accept-Ranges", "bytes");
           ("Content-Length", num_text chunksize);
           ("Content-Type", "video/mp4")]
          (FileStream videoPath (Some (start, end_)))
      else internal_error
    else
      mkResponse 200
        [("Content-Length", pretty fileSize);
         ("Content-Type", "video/mp4");
         ("Accept-Ranges", "bytes")]
        (FileStream videoPath None).

(** GET /api/videos/download/:videoId *)
Definition download_video (w : World) (videoId : string) : Response :=
  let videoPath := video_file videoId in
  if bool_decide (videoPath ∈ files w)
  then mkResponse 200 [] (Download videoPath ("LearnAI_" +:+ videoId +:+ ".mp4"))
  else not_found.

End Routes.

Module WebSample.

Definition server : Server := mkServer "/app/output/videos".

(** Files of 1000 bytes; every stream can be opened. *)
Definition disk : FileSystem := mkFileSystem (fun _ _ => 1000) (fun _ _ _ => true).

End WebSample.

(** * Reasoning about runs *)

Lemma extend_nil w : extend w [] = w.
Proof. destruct w as [fs l]. unfold extend, replay. simpl. by rewrite app_nil_r. Qed.

Lemma extend_app w evs1 evs2 : extend (extend w evs1) evs2 = extend w (evs1 ++ evs2).
Proof. unfold extend, replay. simpl. by rewrite foldl_app, app_assoc. Qed.

Lemma extend_cons w ev evs : extend (extend w [ev]) evs = extend w (ev :: evs).
Proof. by rewrite extend_app. Qed.

Lemma run_events_extend w evs : run_events w (extend w evs) = evs.
Proof. unfold run_events, extend. simpl. by rewrite drop_app_length. Qed.

Lemma replay_app fs evs1 evs2 : replay fs (evs1 ++ evs2) = replay (replay fs evs1) evs2.
Proof. unfold replay. by rewrite foldl_app. Qed.

Lemma replay_cons fs ev evs : replay fs (ev :: evs) = replay (apply_event fs ev) evs.
Proof. reflexivity. Qed.

(** Without an unlink among the events no file disappears. *)
Lemma replay_keeps fs evs p :
  Forall (fun ev => is_unlink ev = false) evs → p ∈ fs → p ∈ replay fs evs.
Proof.
  intros Hno. revert fs. induction Hno as [|ev evs Hev _ IH]; intros fs Hp; [done|].
  unfold replay in *. simpl. apply IH.
  destruct ev as [| cmd [e|] | | | | | | pr text ap [e|] |]; simpl in *; try done; set_solver.
Qed.

(** A file that a successful ffmpeg run wrote stays, as long as nothing is
    unlinked. *)
Lemma replay_encoded fs evs cmd :
  Forall (fun ev => is_unlink ev = false) evs →
  EvFfmpeg cmd None ∈ evs → output cmd ∈ replay fs evs.
Proof.
  intros Hno Hin. apply list_elem_of_split in Hin as (l1 & l2 & ->).
  apply Forall_app in Hno as [_ Hno2]. apply Forall_cons in Hno2 as [_ Hno2].
  rewrite replay_app. change (replay (replay fs l1) (EvFfmpeg cmd None :: l2))
    with (replay ({[output cmd]} ∪ replay fs l1) l2).
  apply replay_keeps; [done | set_solver].
Qed.

(** After unlinking a list of paths at the end, none of them is left. *)
Lemma replay_unlinks fs paths p :
  p ∈ replay fs (map EvUnlink paths) ↔ p ∈ fs ∧ p ∉ paths.
Proof.
  revert fs. induction paths as [|q paths IH]; intros fs; simpl.
  - unfold replay. simpl. set_solver.
  - change (replay fs (EvUnlink q :: map EvUnlink paths))
      with (replay (fs ∖ {[q]}) (map EvUnlink paths)).
    rewrite IH. set_solver.
Qed.

Lemma bind_resolved {A B} (c : Async A) (k : A → Async B) w a w1 :
  c w = (Resolved a, w1) → bind c k w = k a w1.
Proof. intros Hc. unfold bind. by rewrite Hc. Qed.

Lemma bind_rejected {A B} (c : Async A) (k : A → Async B) w e w1 :
  c w = (Rejected e, w1) → bind c k w = (Rejected e, w1).
Proof. intros Hc. unfold bind. by rewrite Hc. Qed.

Lemma try_catch_resolved {A} (c : Async A) h w a w1 :
  c w = (Resolved a, w1) → try_catch c h w = (Resolved a, w1).
Proof. intros Hc. unfold try_catch. by rewrite Hc. Qed.

Lemma try_catch_rejected {A} (c : Async A) h w e w1 :
  c w = (Rejected e, w1) → try_catch c h w = h e w1.
Proof. intros Hc. unfold try_catch. by rewrite Hc. Qed.

(** ** Facts about strings and paths *)

Lemma append_nil_l (b : string) : "" +:+ b = b.
Proof. reflexivity. Qed.

Lemma append_cons (x : Ascii.ascii) (a b : string) : String x a +:+ b = String x (a +:+ b).
Proof. reflexivity. Qed.

Lemma last_char_append a b : b ≠ "" → last_char (a +:+ b) = last_char b.
Proof.
  intros Hb. induction a as [|c a IH]; [done|].
  rewrite append_cons. simpl. rewrite IH. destruct (a +:+ b) eqn:Hab; [|done].
  destruct a; [by rewrite append_nil_l in Hab | by rewrite append_cons in Hab].
Qed.

Lemma append_assoc (a b c : string) : (a +:+ b) +:+ c = a +:+ (b +:+ c).
Proof.
  induction a as [|x a IH]; [done|].
  by rewrite !append_cons, IH.
Qed.

Lemma append_length (a b : string) :
  String.length (a +:+ b) = (String.length a + String.length b)%nat.
Proof.
  induction a as [|x a IH]; [done|].
  rewrite append_cons. simpl. by rewrite IH.
Qed.

(** A common suffix can be cancelled. *)
Lemma append_inj_suffix (a b s : string) : a +:+ s = b +:+ s → a = b.
Proof.
  revert b. induction a as [|x a IH]; intros [|y b] Heq.
  - done.
  - apply (f_equal String.length) in Heq.
    rewrite append_nil_l, append_cons in Heq. simpl in Heq.
    rewrite append_length in Heq. lia.
  - apply (f_equal String.length) in Heq.
    rewrite append_nil_l, append_cons in Heq. simpl in Heq.
    rewrite append_length in Heq. lia.
  - rewrite !append_cons in Heq. injection Heq as -> Heq. f_equal. by apply IH.
Qed.

Section Primitives.
Variable env : Env.

Lemma emit_run ev w :
  (∀ fs, apply_event fs ev = fs) → emit ev w = (Resolved tt, extend w [ev]).
Proof. intros Hev. unfold emit, extend, replay. simpl. by rewrite Hev. Qed.

Lemma writeFile_run p content w :
  writeFile p content w = (Resolved tt, extend w [EvWriteFile p content]).
Proof. reflexivity. Qed.

Lemma fresh_uuid_run w :
  fresh_uuid env w = (Resolved (uuidv4 env w), extend w [EvUuid (uuidv4 env w)]).
Proof. reflexivity. Qed.

Lemma save_run cmd w :
  save env cmd w =
    match ffmpeg_run env w cmd with
    | None => (Resolved tt, extend w [EvFfmpeg cmd None])
    | Some err => (Rejected err, extend w [EvFfmpeg cmd (Some err)])
    end.
Proof. unfold save. by destruct (ffmpeg_run env w cmd). Qed.

Lemma stat_run p w :
  stat env p w =
    (if bool_decide (p ∈ files w)
     then Resolved (stat_size env w p) else Rejected (Error "ENOENT"),
     extend w [EvStat p]).
Proof. unfold stat. by case_bool_decide. Qed.

(** [try { await fs.unlink(p) } catch { }] always resolves and leaves no
    file at [p]. *)
Lemma unlink_quiet_run p w :
  try_catch (unlink p) (fun _ => ret tt) w = (Resolved tt, extend w [EvUnlink p]).
Proof.
  unfold try_catch, unlink, ret, extend, replay. simpl.
  case_bool_decide as Hp; [done|].
  do 2 f_equal. set_solver.
Qed.

End Primitives.

Section VideoFacts.
Variable this : VideoService.
Variable env : Env.

Lemma cleanupSegments_run segments w :
  cleanupSegments segments w = (Resolved tt, extend w (map EvUnlink segments)).
Proof.
  revert w. induction segments as [|p segments IH]; intros w; simpl.
  - unfold ret. by rewrite extend_nil.
  - unfold bind. rewrite unlink_quiet_run, IH. by rewrite extend_cons.
Qed.

Lemma segment_command_output scene imagePath audioPath withAudio index :
  output (segment_command this scene imagePath audioPath withAudio index) =
    segment_path this index.
Proof. by destruct withAudio. Qed.

Lemma encodes_output cmd k : encodes this cmd k → output cmd = segment_path this k.
Proof. intros (scene & imagePath & audioPath & withAudio & ->). apply segment_command_output. Qed.

(** A segment command is never the concatenation command. *)
Lemma encodes_not_concat cmd k outputPath :
  encodes this cmd k → cmd ≠ concat_command this outputPath.
Proof. intros (scene & imagePath & audioPath & withAudio & ->). by destruct withAudio. Qed.

(** createSegment runs exactly one ffmpeg command and resolves with the
    segment path when that run ends well. *)
Lemma createSegment_run scene imagePath audioPath index w :
  createSegment this env scene imagePath audioPath index w =
    let cmd := segment_command this scene imagePath audioPath
                 (truthy audioPath && bool_decide (default "" audioPath ∈ files w)) index in
    match ffmpeg_run env w cmd with
    | None => (Resolved (segment_path this index), extend w [EvFfmpeg cmd None])
    | Some err => (Rejected err, extend w [EvFfmpeg cmd (Some err)])
    end.
Proof.
  unfold createSegment, bind.
  destruct (truthy audioPath); simpl; unfold existsSync, ret; rewrite save_run;
    by destruct (ffmpeg_run env w _).
Qed.

Lemma concatenateSegments_run segments outputPath w :
  concatenateSegments this env segments outputPath w =
    let w1 := extend w [EvWriteFile (concatFilePath this) (concatContent segments)] in
    match ffmpeg_run env w1 (concat_command this outputPath) with
    | None =>
        (Resolved tt,
         extend w [EvWriteFile (concatFilePath this) (concatContent segments);
                   EvFfmpeg (concat_command this outputPath) None;
                   EvUnlink (concatFilePath this)])
    | Some err =>
        (Rejected err,
         extend w [EvWriteFile (concatFilePath this) (concatContent segments);
                   EvFfmpeg (concat_command this outputPath) (Some err)])
    end.
Proof.
  unfold concatenateSegments, bind. rewrite writeFile_run, save_run. simpl.
  destruct (ffmpeg_run env _ _).
  - rewrite extend_app. reflexivity.
  - rewrite unlink_quiet_run, !extend_app. reflexivity.
Qed.

Lemma segment_event_weaken idxs idxs' ev :
  idxs ⊆ idxs' → segment_event this idxs ev → segment_event this idxs' ev.
Proof.
  intros Hsub. destruct ev; simpl; try done.
  intros (k & Hk & Hout). exists k. split; [by apply Hsub | done].
Qed.

Lemma encoded_indices_step images scene rest i :
  encoded_indices images rest (S i) ⊆ encoded_indices images (scene :: rest) i.
Proof. simpl. destruct (has_image images scene); set_solver. Qed.

Lemma encoded_indices_nil images rest i :
  encoded_indices images rest i = [] ↔ Forall (fun scene => has_image images scene = false) rest.
Proof.
  revert i. induction rest as [|scene rest IH]; intros i; simpl.
  - split; [intros _; constructor | done].
  - destruct (has_image images scene) eqn:Himg.
    + split; [done | intros Hall; inversion Hall; congruence].
    + rewrite IH. split; [intros Hall; by constructor | intros Hall; by inversion Hall].
Qed.

(** The scene loop: either every scene with an image was encoded, and the
    loop resolves with the segment paths of exactly those scenes, in order
    of position, or the run of ffmpeg for one of them failed and the loop
    rejects with that error at once. *)
Lemma scene_loop_run images audioFiles rest : ∀ i segments w,
  ∃ evs,
    Forall (segment_event this (encoded_indices images rest i)) evs ∧
    Forall (fun ev => is_unlink ev = false) evs ∧
    ((scene_loop this env images audioFiles rest i segments w =
        (Resolved (segments ++ map (segment_path this) (encoded_indices images rest i)),
         extend w evs) ∧
      all_encoded this (encoded_indices images rest i) evs ∧
      (encoded_indices images rest i = [] →
       evs = map (fun scene => EvWarnSkip (Scene.id scene)) rest)) ∨
     (∃ cmd e,
        (∃ k, k ∈ encoded_indices images rest i ∧ encodes this cmd k) ∧
        scene_loop this env images audioFiles rest i segments w =
          (Rejected e, extend w (evs ++ [EvFfmpeg cmd (Some e)])))).
Proof.
  induction rest as [|scene rest IH]; intros i segments w.
  - exists []. split_and!; [constructor | constructor |].
    left. simpl. unfold ret. rewrite app_nil_r, extend_nil.
    split_and!; [done | intros k Hk; by apply elem_of_nil in Hk | done].
  - simpl. fold (has_image images scene).
    destruct (has_image images scene) eqn:Himg; simpl.
    + unfold bind. rewrite createSegment_run. simpl.
      match goal with |- context [ffmpeg_run env w ?c] => set (cmd := c) end.
      destruct (ffmpeg_run env w cmd) as [err|] eqn:Hrun.
      * exists []. split_and!; [constructor | constructor |].
        right. exists cmd, err. split; [|reflexivity].
        exists i. split; [set_solver | by eexists _, _, _, _].
      * destruct (IH (S i) (segments ++ [segment_path this i])
                    (extend w [EvFfmpeg cmd None])) as (evs & Hseg & Hno & Hres).
        exists (EvFfmpeg cmd None :: evs). split_and!.
        -- constructor; [exists i; split; [set_solver | by eexists _, _, _, _] |].
           eapply Forall_impl; [exact Hseg |].
           intros ev. apply segment_event_weaken. set_solver.
        -- by constructor.
        -- destruct Hres as [(Hres & Hall & _) | (cmd' & e & (k & Hk & Hout) & Hres)].
           ++ left. split_and!; [| |done].
              ** rewrite Hres, extend_cons. by rewrite <- app_assoc.
              ** intros k [->|Hk]%elem_of_cons.
                 --- exists cmd. split; [set_solver | apply segment_command_output].
                 --- destruct (Hall k Hk) as (cmd' & Hin & Hout).
                     exists cmd'. split; [set_solver | done].
           ++ right. exists cmd', e. split; [exists k; split; [set_solver | done] |].
              by rewrite Hres, extend_cons.
    + unfold bind. rewrite emit_run by done.
      destruct (IH (S i) segments (extend w [EvWarnSkip (Scene.id scene)]))
        as (evs & Hseg & Hno & Hres).
      exists (EvWarnSkip (Scene.id scene) :: evs). split_and!.
      * by constructor.
      * by constructor.
      * destruct Hres as [(Hres & Hall & Hnil) | (cmd' & e & Hk & Hres)].
        -- left. split_and!; [by rewrite Hres, extend_cons | |].
           ++ intros k Hk. destruct (Hall k Hk) as (cmd' & Hin & Hout).
              exists cmd'. split; [set_solver | done].
           ++ intros Hempty. by rewrite (Hnil Hempty).
        -- right. exists cmd', e. split; [done |]. by rewrite Hres, extend_cons.
Qed.

(** The output file and the manifest never coincide: one ends in "4",
    the other in "t". *)
Lemma output_path_not_manifest videoId : output_path this videoId ≠ concatFilePath this.
Proof.
  intros Heq. apply (f_equal last_char) in Heq.
  unfold output_path, concatFilePath, path_join in Heq.
  rewrite <- !append_assoc in Heq.
  rewrite (last_char_append _ ".mp4"), (last_char_append _ "concat_list.txt") in Heq by done.
  discriminate.
Qed.

(** The output path is scoped to the run identifier. *)
Lemma output_path_inj videoId1 videoId2 :
  output_path this videoId1 = output_path this videoId2 → videoId1 = videoId2.
Proof.
  unfold output_path, path_join. intros Heq.
  apply (inj (String.app _)) in Heq. apply (inj (String.app _)) in Heq.
  by apply append_inj_suffix in Heq.
Qed.

(** Every run of createVideo is one of the four runs of [video_run]. *)
Lemma createVideo_run script images audioFiles w :
  ∃ o evs,
    createVideo this env script images audioFiles w = (o, extend w evs) ∧
    video_run this script images (uuidv4 env w) o evs.
Proof.
  set (videoId := uuidv4 env w).
  pose proof (scene_loop_run images audioFiles (Script.scenes script) 0 []
                (extend w [EvUuid videoId])) as (evs & Hseg & Hno & Hloop).
  unfold createVideo. erewrite bind_resolved by apply fresh_uuid_run. fold videoId.
  destruct Hloop as [(Hloop & Hall & Hnil) | (cmd & e & Hk & Hloop)].
  - simpl in Hloop.
    destruct (encoded_indices images (Script.scenes script) 0) as [|k idxs'] eqn:Hidxs.
    + (* no segment at all *)
      eexists _, _. split.
      * erewrite try_catch_rejected.
        2:{ erewrite bind_resolved by exact Hloop. simpl.
            erewrite bind_rejected by reflexivity. reflexivity. }
        erewrite bind_resolved by (by apply emit_run).
        unfold throw. rewrite !extend_app. reflexivity.
      * simpl. apply run_no_segments; [done | by apply Hnil].
    + rewrite <- Hidxs in Hloop, Hseg, Hall.
      assert (Hne : encoded_indices images (Script.scenes script) 0 ≠ []) by congruence.
      clear Hidxs Hnil.
      set (segments := map (segment_path this)
                         (encoded_indices images (Script.scenes script) 0)) in *.
      assert (Hlen : (length segments =? 0)%nat = false).
      { subst segments. destruct (encoded_indices images (Script.scenes script) 0); done. }
      set (w1 := extend (extend w [EvUuid videoId]) evs) in *.
      pose proof (concatenateSegments_run segments (output_path this videoId) w1) as Hcat.
      simpl in Hcat.
      destruct (ffmpeg_run env _ (concat_command this (output_path this videoId)))
        as [err|] eqn:Hrun.
      * (* the concatenation fails *)
        eexists _, _. split.
        -- erewrite try_catch_rejected.
           2:{ erewrite bind_resolved by exact Hloop. rewrite Hlen.
               erewrite bind_resolved by reflexivity.
               erewrite bind_rejected by exact Hcat. reflexivity. }
           erewrite bind_resolved by (by apply emit_run).
           unfold throw, w1. rewrite !extend_app. reflexivity.
        -- simpl. by apply run_concat_failed.
      * (* the run completes *)
        eexists _, _. split.
        -- erewrite try_catch_resolved; [reflexivity|].
           erewrite bind_resolved by exact Hloop. rewrite Hlen.
           erewrite bind_resolved by reflexivity.
           erewrite bind_resolved by exact Hcat.
           erewrite bind_resolved.
           2:{ rewrite stat_run. rewrite bool_decide_eq_true_2; [reflexivity|].
               unfold extend, replay. simpl.
               pose proof (output_path_not_manifest videoId). set_solver. }
           erewrite bind_resolved by apply cleanupSegments_run.
           unfold ret, w1. rewrite !extend_app. reflexivity.
        -- simpl.
           match goal with |- context [VideoResult.mk _ _ _ ?sz _] => set (size := sz) end.
           pose proof (run_done this script images videoId evs size Hne Hseg Hno Hall) as Hdone.
           simpl in Hdone. rewrite <- !app_assoc in *. exact Hdone.
  - (* an encoding fails *)
    eexists _, _. split.
    + erewrite try_catch_rejected.
      2:{ erewrite bind_rejected by exact Hloop. reflexivity. }
      erewrite bind_resolved by (by apply emit_run).
      unfold throw. rewrite !extend_app. reflexivity.
    + simpl. rewrite <- app_assoc. simpl. by apply run_encode_failed.
Qed.

Lemma join_concat sep (l : list string) : join sep l = String.concat sep l.
Proof.
  induction l as [|piece l IH]; [done|].
  destruct l as [|piece' l]; [done|].
  cbn [join String.concat] in *. by rewrite IH.
Qed.

(** The manifest of a list of segments, line by line. *)
Lemma concatContent_lines (idxs : list nat) :
  concatContent (map (segment_path this) idxs) =
  String.concat (String (Ascii.ascii_of_nat 10) EmptyString)
    (map (fun k => "file '" +:+ segment_path this k +:+ "'") idxs).
Proof. unfold concatContent. by rewrite join_concat, map_map. Qed.

(** A weaker demand on the audio files at hand is met by the same command. *)
Lemma renders_present scenes images audioFiles (present present' : gset string) k cmd :
  (∀ p, p ∈ present → p ∈ present') →
  renders this scenes images audioFiles present' k cmd →
  renders this scenes images audioFiles present k cmd.
Proof.
  intros Hsub (scene & imagePath & Hk & Himg & Hout & Hhead & Htail & Haudio).
  exists scene, imagePath. split_and!; try done.
  intros a Ha Hne Hin. apply Haudio; auto.
Qed.

(** The command createSegment builds for a scene renders that scene. *)
Lemma segment_command_renders scenes images audioFiles (present : gset string) k scene imagePath :
  scenes !! k = Some scene →
  find_image images scene ≫= Image.path = Some imagePath →
  renders this scenes images audioFiles present k
    (segment_command this scene imagePath (find_audio audioFiles scene ≫= Audio.path)
       (truthy (find_audio audioFiles scene ≫= Audio.path) &&
        bool_decide (default "" (find_audio audioFiles scene ≫= Audio.path) ∈ present)) k).
Proof.
  intros Hk Himg. exists scene, imagePath.
  destruct (find_audio audioFiles scene ≫= Audio.path) as [a|] eqn:Hfound.
  - split_and!; [done | done | apply segment_command_output | | |].
    + by destruct (truthy (Some a) && bool_decide (default "" (Some a) ∈ present)).
    + intros input Hin.
      destruct (truthy (Some a) && bool_decide (default "" (Some a) ∈ present));
        simpl in Hin; [|by apply elem_of_nil in Hin].
      apply list_elem_of_singleton in Hin as ->. by exists a.
    + intros a' [= <-] Hne Hin. simpl.
      rewrite (bool_decide_eq_true_2 _ Hin).
      by destruct (String.eqb_spec a "").
  - split_and!; [done | done | done | done | |].
    + intros input Hin. simpl in Hin. by apply elem_of_nil in Hin.
    + intros a' [=].
Qed.

(** A loop that resolves has run, for the scenes with an image and in the
    order of the script, the command that renders each of them, and no
    other command. *)
Lemma scene_loop_renders scenes images audioFiles rest : ∀ i segments w segments' w',
  (∀ j scene, rest !! j = Some scene → scenes !! (i + j)%nat = Some scene) →
  scene_loop this env images audioFiles rest i segments w = (Resolved segments', w') →
  ∃ evs,
    w' = extend w evs ∧
    Forall (fun ev => is_unlink ev = false) evs ∧
    Forall2 (renders this scenes images audioFiles (files w))
      (encoded_indices images rest i) (omap encoded_by evs).
Proof.
  induction rest as [|scene rest IH]; intros i segments w segments' w' Hscenes Hloop;
    simpl in Hloop.
  - injection Hloop as <- <-. exists []. rewrite extend_nil. split_and!; by constructor.
  - assert (Hrest : ∀ j scene', rest !! j = Some scene' → scenes !! (S i + j)%nat = Some scene').
    { intros j scene' Hj. replace (S i + j)%nat with (i + S j)%nat by lia. by apply Hscenes. }
    assert (Hhere : scenes !! i = Some scene).
    { replace i with (i + 0)%nat by lia. by apply Hscenes. }
    fold (has_image images scene) in Hloop. simpl.
    destruct (has_image images scene) eqn:Himg; simpl in Hloop; unfold bind in Hloop.
    + rewrite createSegment_run in Hloop. simpl in Hloop.
      match type of Hloop with context [ffmpeg_run env w ?c] => set (cmd := c) in * end.
      destruct (ffmpeg_run env w cmd) as [err|]; [discriminate|].
      destruct (IH _ _ _ _ _ Hrest Hloop) as (evs & -> & Hno & Hcmds).
      exists (EvFfmpeg cmd None :: evs). rewrite extend_cons. split_and!; [done | by constructor |].
      change (omap encoded_by (EvFfmpeg cmd None :: evs)) with (cmd :: omap encoded_by evs).
      constructor.
      * unfold has_image in Himg.
        destruct (find_image images scene ≫= Image.path) as [imagePath|] eqn:Hpath; [|done].
        by apply segment_command_renders.
      * eapply Forall2_impl; [exact Hcmds|]. intros k cmd'. apply renders_present.
        intros p Hp. simpl. set_solver.
    + rewrite emit_run in Hloop by done.
      destruct (IH _ _ _ _ _ Hrest Hloop) as (evs & -> & Hno & Hcmds).
      exists (EvWarnSkip (Scene.id scene) :: evs). rewrite extend_cons.
      split_and!; [done | by constructor | done].
Qed.

End VideoFacts.

(** * The claims *)

(** ** C1: the reported duration *)

Lemma filter_all_true {A} (P : A → Prop) `{∀ x, Decision (P x)} (l : list A) :
  Forall P l → filter P l = l.
Proof.
  induction 1 as [|x l Hx _ IH]; [done|].
  rewrite filter_cons_True by done. by rewrite IH.
Qed.

(** C1, as stated, fails.  In the run below scene 2 has no image and is
    skipped, the only segment is that of scene 1 (30 seconds), and yet the
    object createVideo returns reports 75 seconds. *)
Lemma reported_duration_counts_skipped_scene :
  fst (createVideo Demo.svc (Demo.env_ok "run-a") Demo.script2
         [Demo.image1] [] Demo.w0) = Resolved Demo.result_a ∧
  VideoResult.duration Demo.result_a = 75 ∧
  rendered_duration [Demo.image1] Demo.script2 = 30.
Proof. split_and!; vm_compute; reflexivity. Qed.

(** C1, amended: the duration in the object createVideo returns is the
    script's precomputed [totalDuration], whichever scenes were skipped.  It
    is the sum of the durations of the scenes that produced a segment when
    [totalDuration] is the sum over all scenes and every scene has an
    image. *)
Theorem createVideo_reports_script_duration this env script images audioFiles w result w' :
  createVideo this env script images audioFiles w = (Resolved result, w') →
  VideoResult.duration result = Script.totalDuration script ∧
  (Script.totalDuration script = sum_durations (Script.scenes script) →
   Forall (fun scene => has_image images scene = true) (Script.scenes script) →
   VideoResult.duration result = rendered_duration images script).
Proof.
  intros Hrun.
  destruct (createVideo_run this env script images audioFiles w) as (o & evs & Heq & Hcase).
  rewrite Hrun in Heq. injection Heq as <- _.
  inversion Hcase; subst. simpl. split; [done|].
  intros Htotal Hall. unfold rendered_duration. by rewrite filter_all_true.
Qed.

Lemma createVideo_reports_script_duration_witness :
  VideoResult.duration Demo.result_a = Script.totalDuration Demo.script2 ∧
  VideoResult.duration Demo.result_a = rendered_duration Demo.images12 Demo.script2.
Proof.
  destruct (createVideo_reports_script_duration Demo.svc (Demo.env_ok "run-a")
              Demo.script2 Demo.images12 [] Demo.w0 Demo.result_a
              (snd Demo.run_ok)) as [Htotal Hrendered].
  - vm_compute. reflexivity.
  - split; [exact Htotal|]. apply Hrendered.
    + vm_compute. reflexivity.
    + repeat constructor.
Defined.

(** ** C2: a failing encoding *)

Section EncodingFailure.
Variable this : VideoService.
Variable env : Env.

(** Running the loop over [before ++ after] is running it over [before]
    and, if that resolves, going on with [after]. *)
Lemma scene_loop_app images audioFiles before after : ∀ i segments w,
  scene_loop this env images audioFiles (before ++ after) i segments w =
    match scene_loop this env images audioFiles before i segments w with
    | (Resolved segments1, w1) =>
        scene_loop this env images audioFiles after (i + length before) segments1 w1
    | (Rejected e, w1) => (Rejected e, w1)
    end.
Proof.
  induction before as [|scene before IH]; intros i segments w; simpl.
  - unfold ret. by rewrite Nat.add_0_r.
  - destruct (negb _); unfold bind.
    + destruct (emit _ w) as [[[]|e] w1]; [|done].
      rewrite IH. by rewrite Nat.add_succ_r.
    + destruct (createSegment _ _ _ _ _ _ w) as [[segmentPath|e] w1]; [|done].
      rewrite IH. by rewrite Nat.add_succ_r.
Qed.

End EncodingFailure.

(** C2, as stated, fails.  Both scenes have an image; ffmpeg fails on the
    segment of scene 1.  The run is not continued with scene 2: createVideo
    rejects with the error of ffmpeg, and the only ffmpeg run in the log is
    the failed one. *)
Lemma encoding_failure_is_not_skipped :
  createVideo Demo.svc (Demo.env_failing "/app/temp/segments/segment_0.mp4")
    Demo.script2 [Demo.image1; Demo.image2] [] Demo.w0 =
  (Rejected Demo.ffmpeg_error,
   mkWorld ∅ [EvUuid "run-a";
              EvFfmpeg Demo.silent_command1 (Some Demo.ffmpeg_error);
              EvConsoleError Demo.ffmpeg_error]).
Proof. vm_compute. reflexivity. Qed.

(** C2, amended: when the scenes before a scene were processed without an
    error, the scene has an image and the encoding of its segment fails,
    createVideo rejects with the error of the encoder.  Nothing happens
    after the failed encoding but the report of the error: the scenes that
    follow are not processed and nothing is concatenated. *)
Theorem encoding_failure_aborts_run this env images audioFiles before scene after
    total w segments w1 e w2 :
  scene_loop this env images audioFiles before 0 []
    (extend w [EvUuid (uuidv4 env w)]) = (Resolved segments, w1) →
  has_image images scene = true →
  createSegment this env scene (default "" (find_image images scene ≫= Image.path))
    (find_audio audioFiles scene ≫= Audio.path) (length before) w1 = (Rejected e, w2) →
  createVideo this env (Script.mk (before ++ scene :: after) total) images audioFiles w =
    (Rejected e, extend w2 [EvConsoleError e]).
Proof.
  intros Hbefore Himg Hencode.
  unfold createVideo. erewrite bind_resolved by apply fresh_uuid_run.
  erewrite try_catch_rejected.
  2:{ erewrite bind_rejected; [reflexivity|]. simpl.
      rewrite scene_loop_app, Hbefore. simpl.
      unfold has_image in Himg. rewrite Himg. simpl.
      erewrite bind_rejected by exact Hencode. reflexivity. }
  erewrite bind_resolved by (by apply emit_run). reflexivity.
Qed.

(** Scene 1 is encoded, the encoding of scene 2 fails. *)
Lemma encoding_failure_aborts_run_witness :
  fst (createVideo Demo.svc (Demo.env_failing "/app/temp/segments/segment_1.mp4")
         (Script.mk ([Demo.scene1] ++ Demo.scene2 :: []) 75) Demo.images12 [] Demo.w0) =
    Rejected Demo.ffmpeg_error.
Proof.
  erewrite (encoding_failure_aborts_run Demo.svc
              (Demo.env_failing "/app/temp/segments/segment_1.mp4")
              Demo.images12 [] [Demo.scene1] Demo.scene2 [] 75 Demo.w0).
  - reflexivity.
  - vm_compute. reflexivity.
  - vm_compute. reflexivity.
  - vm_compute. reflexivity.
Defined.

(** ** C3: cleanup of the temporary files *)

(** C3, as stated, fails.  In the run below both segments are encoded and the
    concatenation fails: createVideo rejects, and the two segment files and
    the manifest are still on disk. *)
Lemma failed_run_leaves_temporary_files :
  fst Demo.run_concat_fails = Rejected Demo.ffmpeg_error ∧
  "/app/temp/segments/segment_0.mp4" ∈ files (snd Demo.run_concat_fails) ∧
  "/app/temp/segments/segment_1.mp4" ∈ files (snd Demo.run_concat_fails) ∧
  "/app/temp/concat_list.txt" ∈ files (snd Demo.run_concat_fails).
Proof.
  split_and!; [vm_compute; reflexivity | | |];
    apply (bool_decide_unpack _); vm_compute; exact I.
Qed.

(** C3, amended: after a run that ends in success the segment files of the
    run and the manifest are gone.  A run that ends in failure unlinks
    nothing: every file that was there before the run and every file a
    successful ffmpeg run wrote during it is still there. *)
Theorem cleanup_only_after_success this env script images audioFiles w o w' :
  createVideo this env script images audioFiles w = (o, w') →
  (is_resolved o = true →
   ∀ p, p ∈ map (segment_path this) (encoded_indices images (Script.scenes script) 0)
        ∨ p = concatFilePath this →
        p ∉ files w') ∧
  (is_resolved o = false →
   Forall (fun ev => is_unlink ev = false) (run_events w w') ∧
   (∀ p, p ∈ files w → p ∈ files w') ∧
   (∀ cmd, EvFfmpeg cmd None ∈ run_events w w' → output cmd ∈ files w')).
Proof.
  intros Hrun.
  destruct (createVideo_run this env script images audioFiles w) as (o' & evs & Heq & Hcase).
  rewrite Hrun in Heq. injection Heq as <- ->. rewrite run_events_extend.
  assert (Hfail : ∀ evs', Forall (fun ev => is_unlink ev = false) evs' →
            Forall (fun ev => is_unlink ev = false) evs' ∧
            (∀ p, p ∈ files w → p ∈ files (extend w evs')) ∧
            (∀ cmd, EvFfmpeg cmd None ∈ evs' → output cmd ∈ files (extend w evs'))).
  { intros evs' Hno. split_and!; [done | |].
    - intros p Hp. by apply replay_keeps.
    - intros cmd Hin. by apply replay_encoded. }
  inversion Hcase as [evs0 cmd e Hseg Hno Hk | evs0 Hnil Hevs | evs0 e Hne Hseg Hno Hall
                     | evs0 size Hne Hseg Hno Hall]; subst; simpl;
    (split; [intros Hres; try discriminate | intros Hres; try discriminate]).
  - apply Hfail. constructor; [done|]. apply Forall_app. split; [done|].
    by repeat constructor.
  - apply Hfail. constructor; [done|]. apply Forall_app. split; [|by repeat constructor].
    apply Forall_fmap. by apply Forall_true.
  - apply Hfail. constructor; [done|]. apply Forall_app. split; [done|].
    by repeat constructor.
  - intros p Hp.
    set (segments := map (segment_path this) (encoded_indices images (Script.scenes script) 0)) in *.
    rewrite replay_app, !replay_cons. simpl. rewrite replay_unlinks.
    intros [Hin Hnot]. destruct Hp as [Hp | ->]; [done | set_solver].
Qed.

Lemma cleanup_only_after_success_witness :
  ("/app/temp/segments/segment_1.mp4" ∉ files (snd Demo.run_ok)) ∧
  ("/app/temp/concat_list.txt" ∉ files (snd Demo.run_ok)) ∧
  Forall (fun ev => is_unlink ev = false)
    (run_events Demo.w0 (snd Demo.run_concat_fails)).
Proof.
  destruct (cleanup_only_after_success Demo.svc (Demo.env_ok "run-a") Demo.script2
              Demo.images12 [] Demo.w0 (Resolved Demo.result_a)
              (snd Demo.run_ok)) as [Hdone _]; [vm_compute; reflexivity|].
  destruct (cleanup_only_after_success Demo.svc
              (Demo.env_failing "/app/output/videos/run-a.mp4") Demo.script2
              Demo.images12 [] Demo.w0 (Rejected Demo.ffmpeg_error)
              (snd Demo.run_concat_fails)) as [_ Hfailed]; [vm_compute; reflexivity|].
  split_and!.
  - apply Hdone; [reflexivity|]. left. apply (bool_decide_unpack _). vm_compute. exact I.
  - apply Hdone; [reflexivity|]. right. reflexivity.
  - apply Hfailed. reflexivity.
Defined.

(** ** C4: the audio stream of a segment *)

(** C4, as stated, fails.  For a scene without narration audio the encoder
    is run with [-an] on the still image alone: the segment has no audio
    stream, and no silence is synthesised. *)
Lemma silent_segment_has_no_audio_stream :
  fst (createSegment Demo.svc (Demo.env_ok "run-a") Demo.scene1
         "/app/temp/images/scene_1.png" None 0 Demo.w0) =
    Resolved "/app/temp/segments/segment_0.mp4" ∧
  log (snd (createSegment Demo.svc (Demo.env_ok "run-a") Demo.scene1
              "/app/temp/images/scene_1.png" None 0 Demo.w0)) =
    [EvFfmpeg Demo.silent_command1 None] ∧
  carries_audio Demo.silent_command1 = false ∧
  "-an" ∈ outputOptions Demo.silent_command1.
Proof.
  split_and!; [vm_compute; reflexivity .. |].
  apply (bool_decide_unpack _). vm_compute. exact I.
Qed.

(** C4, amended: createSegment runs one ffmpeg command, which writes the
    segment of the given position.  The segment carries an audio stream
    exactly when an audio path is given and the file exists: the command
    then reads the looped still image and, as its second and last input, that
    audio file, which it encodes as AAC and which ends the segment with
    [-shortest].  Otherwise the still image is the only input and the
    segment is encoded with [-an], video only; no silence is synthesised.
    The options of the video stream (codec, preset, pixel format, scaling
    filter) are the same in both cases. *)
Theorem createSegment_audio_policy this env scene imagePath audioPath index w :
  ∃ cmd answer,
    log (snd (createSegment this env scene imagePath audioPath index w)) =
      log w ++ [EvFfmpeg cmd answer] ∧
    output cmd = segment_path this index ∧
    (carries_audio cmd = true ↔ ∃ p, audioPath = Some p ∧ p ≠ "" ∧ p ∈ files w) ∧
    (carries_audio cmd = false ↔ "-an" ∈ outputOptions cmd) ∧
    video_options cmd =
      ["-c:v libx264"; "-preset fast"; "-pix_fmt yuv420p"; "-vf"; scale_filter] ∧
    (∀ p, audioPath = Some p → p ≠ "" → p ∈ files w →
       inputs cmd =
         [(imagePath, ["-loop 1"; "-t " +:+ pretty (Scene.duration scene)]); (p, [])] ∧
       audio_inputs cmd = [p] ∧
       outputOptions cmd =
         ["-c:v libx264"; "-preset fast"; "-pix_fmt yuv420p";
          "-c:a aac"; "-b:a 128k"; "-ar 44100"; "-shortest";
          "-vf";
          "scale=1920:1080:force_original_aspect_ratio=decrease,pad=1920:1080:(ow-iw)/2:(oh-ih)/2,setsar=1"]) ∧
    (carries_audio cmd = false →
       inputs cmd = [(imagePath, ["-loop 1"; "-t " +:+ pretty (Scene.duration scene)])] ∧
       audio_inputs cmd = [] ∧
       outputOptions cmd =
         ["-c:v libx264"; "-preset fast"; "-pix_fmt yuv420p";
          "-vf";
          "scale=1920:1080:force_original_aspect_ratio=decrease,pad=1920:1080:(ow-iw)/2:(oh-ih)/2,setsar=1";
          "-an"]).
Proof.
  rewrite createSegment_run. simpl.
  set (withAudio := truthy audioPath && bool_decide (default "" audioPath ∈ files w)).
  exists (segment_command this scene imagePath audioPath withAudio index),
         (ffmpeg_run env w (segment_command this scene imagePath audioPath withAudio index)).
  assert (Hwith : withAudio = true ↔ ∃ p, audioPath = Some p ∧ p ≠ "" ∧ p ∈ files w).
  { unfold withAudio. rewrite andb_true_iff, bool_decide_eq_true.
    destruct audioPath as [p|]; simpl.
    - rewrite negb_true_iff, String.eqb_neq. split.
      + intros [Hp Hin]. by exists p.
      + intros (q & [= <-] & Hq & Hin). done.
    - split; [intros [? _]; done | intros (q & ? & _); done]. }
  assert (Hcarries : carries_audio (segment_command this scene imagePath audioPath withAudio index)
                     = withAudio).
  { destruct withAudio; vm_compute; reflexivity. }
  rewrite Hcarries.
  split_and!.
  - by destruct (ffmpeg_run env w _).
  - apply segment_command_output.
  - done.
  - destruct withAudio; simpl; split; try done.
    + intros Han. apply (bool_decide_pack _) in Han. vm_compute in Han. done.
    + intros _. apply (bool_decide_unpack _). vm_compute. exact I.
  - by destruct withAudio.
  - intros p -> Hne Hin.
    assert (Htrue : withAudio = true) by (apply Hwith; by exists p).
    rewrite Htrue. split_and!; [reflexivity | vm_compute; reflexivity | reflexivity].
  - intros ->. split_and!; [reflexivity | vm_compute; reflexivity | reflexivity].
Qed.

Lemma createSegment_audio_policy_witness :
  ∃ cmd answer,
    log (snd (createSegment Demo.svc (Demo.env_ok "run-a") Demo.scene3
                "/app/temp/images/scene_3.png" (Some "/app/temp/audio/scene_3.mp3") 2
                Demo.w_audio)) = [EvFfmpeg cmd answer] ∧
    inputs cmd = [("/app/temp/images/scene_3.png", ["-loop 1"; "-t 20"]);
                  ("/app/temp/audio/scene_3.mp3", [])].
Proof.
  destruct (createSegment_audio_policy Demo.svc (Demo.env_ok "run-a") Demo.scene3
              "/app/temp/images/scene_3.png" (Some "/app/temp/audio/scene_3.mp3") 2
              Demo.w_audio)
    as (cmd & answer & Hlog & _ & _ & _ & _ & Haudio & _).
  exists cmd, answer. split; [exact Hlog|].
  destruct (Haudio "/app/temp/audio/scene_3.mp3") as [Hinputs _].
  - reflexivity.
  - discriminate.
  - apply (bool_decide_unpack _). vm_compute. exact I.
  - exact Hinputs.
Defined.

(** ** C5: the paths of the temporary files *)

Lemma encoded_indices_elem images rest : ∀ i k,
  k ∈ encoded_indices images rest i ↔
  ∃ scene, (i ≤ k)%nat ∧ rest !! (k - i)%nat = Some scene ∧ has_image images scene = true.
Proof.
  induction rest as [|scene rest IH]; intros i k; simpl.
  - split; [by intros ?%elem_of_nil | by intros (? & _ & ? & _)].
  - assert (Hstep : k ∈ encoded_indices images rest (S i) ↔
              ∃ scene', (i < k)%nat ∧ (scene :: rest) !! (k - i)%nat = Some scene' ∧
                        has_image images scene' = true).
    { rewrite IH. split; intros (scene' & Hle & Hlook & Himg); exists scene'.
      - split_and!; [lia | | done].
        replace (k - i)%nat with (S (k - S i)) by lia. done.
      - split_and!; [lia | | done].
        replace (k - i)%nat with (S (k - S i)) in Hlook by lia. done. }
    destruct (has_image images scene) eqn:Hscene.
    + rewrite elem_of_cons, Hstep. split.
      * intros [-> | (scene' & Hlt & Hlook & Himg)].
        -- exists scene. rewrite Nat.sub_diag. done.
        -- exists scene'. split_and!; [lia | done | done].
      * intros (scene' & Hle & Hlook & Himg).
        destruct (decide (k = i)) as [-> | Hki]; [by left | right].
        exists scene'. split_and!; [lia | done | done].
    + rewrite Hstep. split.
      * intros (scene' & Hlt & Hlook & Himg). exists scene'. split_and!; [lia | done | done].
      * intros (scene' & Hle & Hlook & Himg).
        destruct (decide (k = i)) as [-> | Hki].
        -- rewrite Nat.sub_diag in Hlook. simpl in Hlook. congruence.
        -- exists scene'. split_and!; [lia | done | done].
Qed.

Lemma encoded_indices_bound images scenes k :
  k ∈ encoded_indices images scenes 0 → (k < length scenes)%nat.
Proof.
  intros (scene & _ & Hlook & _)%encoded_indices_elem.
  rewrite Nat.sub_0_r in Hlook. by eapply lookup_lt_Some.
Qed.

(** Where the events of a run write: the output file, the manifest or the
    segment of a scene with an image. *)
Lemma video_run_written this script images videoId o evs ev p :
  video_run this script images videoId o evs →
  ev ∈ evs → written ev = Some p →
  p = output_path this videoId ∨ p = concatFilePath this ∨
  ∃ k, k ∈ encoded_indices images (Script.scenes script) 0 ∧ p = segment_path this k.
Proof.
  assert (Hloop : ∀ evs0,
            Forall (segment_event this (encoded_indices images (Script.scenes script) 0)) evs0 →
            ev ∈ evs0 → written ev = Some p →
            ∃ k, k ∈ encoded_indices images (Script.scenes script) 0 ∧ p = segment_path this k).
  { intros evs0 Hseg Hin Hw. rewrite Forall_forall in Hseg. specialize (Hseg ev Hin).
    destruct ev; simpl in *; try done. injection Hw as <-.
    destruct Hseg as (k & Hk & Henc). exists k. split; [done | by apply encodes_output]. }
  intros Hcase Hin Hw.
  inversion Hcase as [evs0 cmd e Hseg Hno Hk | evs0 Hnil Hevs | evs0 e Hne Hseg Hno Hall
                     | evs0 size Hne Hseg Hno Hall]; subst;
    rewrite elem_of_cons, ?elem_of_app, ?elem_of_cons, ?elem_of_nil, ?list_elem_of_fmap in Hin.
  - destruct Hin as [-> | [Hin | [-> | [-> | []]]]]; simpl in Hw; try done.
    + right. right. by apply (Hloop evs0).
    + injection Hw as <-. destruct Hk as (k & Hk & Henc).
      right. right. exists k. split; [done | by apply encodes_output].
  - destruct Hin as [-> | [(scene & -> & _) | [-> | []]]]; simpl in Hw; done.
  - destruct Hin as [-> | [Hin | [-> | [-> | [-> | []]]]]]; simpl in Hw; try done.
    + right. right. by apply (Hloop evs0).
    + injection Hw as <-. by right; left.
    + injection Hw as <-. by left.
  - destruct Hin as [-> | [Hin | [[-> | [-> | [-> | [-> | []]]]] | (q & -> & _)]]];
      simpl in Hw; try done.
    + right. right. by apply (Hloop evs0).
    + injection Hw as <-. by right; left.
    + injection Hw as <-. by left.
Qed.

(** C5, as stated, fails.  Two runs of the service with the distinct
    identifiers "run-a" and "run-b" both write the manifest
    /app/temp/concat_list.txt and the segment
    /app/temp/segments/segment_0.mp4. *)
Lemma distinct_runs_share_temporary_paths :
  uuidv4 (Demo.env_ok "run-a") Demo.w0 ≠ uuidv4 (Demo.env_ok "run-b") Demo.w0 ∧
  "/app/temp/concat_list.txt" ∈
    temp_paths Demo.svc "run-a" (run_events Demo.w0 (snd Demo.run_ok)) ∧
  "/app/temp/concat_list.txt" ∈
    temp_paths Demo.svc "run-b" (run_events Demo.w0 (snd Demo.run_ok_b)) ∧
  "/app/temp/segments/segment_0.mp4" ∈
    temp_paths Demo.svc "run-a" (run_events Demo.w0 (snd Demo.run_ok)) ∧
  "/app/temp/segments/segment_0.mp4" ∈
    temp_paths Demo.svc "run-b" (run_events Demo.w0 (snd Demo.run_ok_b)).
Proof.
  split_and!; [done | | | |]; apply (bool_decide_unpack _); vm_compute; exact I.
Qed.

(** C5, amended: the temporary paths of a run do not depend on its run
    identifier.  Whatever the identifier, a run writes its manifest to
    [tempDir/concat_list.txt] and the segment of the scene at position [k]
    to [tempDir/segments/segment_k.mp4], and every run that ends in success
    has written that manifest path, so that two such runs of one service
    share it.  Only the output path is scoped to the identifier: distinct
    identifiers give distinct output paths. *)
Theorem temp_paths_not_scoped_to_run this env script images audioFiles w o w' :
  createVideo this env script images audioFiles w = (o, w') →
  (∀ p, p ∈ temp_paths this (uuidv4 env w) (run_events w w') →
        p = concatFilePath this ∨
        ∃ k, (k < length (Script.scenes script))%nat ∧ p = segment_path this k) ∧
  (is_resolved o = true →
   concatFilePath this ∈ temp_paths this (uuidv4 env w) (run_events w w')) ∧
  (∀ videoId, videoId ≠ uuidv4 env w →
              output_path this videoId ≠ output_path this (uuidv4 env w)).
Proof.
  intros Hrun.
  destruct (createVideo_run this env script images audioFiles w) as (o' & evs & Heq & Hcase).
  rewrite Hrun in Heq. injection Heq as <- ->. rewrite run_events_extend.
  unfold temp_paths. split_and!.
  - intros p [Hp (ev & Hin & Hw)%list_elem_of_omap]%list_elem_of_filter.
    destruct (video_run_written _ _ _ _ _ _ _ _ Hcase Hin Hw) as [? | [? | (k & Hk & ->)]];
      [done | by left | right].
    exists k. split; [by eapply encoded_indices_bound | done].
  - intros Hres. apply list_elem_of_filter. split.
    + intros Heq. by apply (output_path_not_manifest this (uuidv4 env w)).
    + apply list_elem_of_omap.
      inversion Hcase as [| | | evs0 size Hne Hseg Hno Hall]; subst; try discriminate.
      eexists (EvWriteFile _ _). split; [|reflexivity].
      rewrite elem_of_cons, elem_of_app. right. right. apply list_elem_of_here.
  - intros videoId Hne Heq. by apply output_path_inj in Heq.
Qed.

Lemma temp_paths_not_scoped_to_run_witness :
  concatFilePath Demo.svc ∈
    temp_paths Demo.svc (uuidv4 (Demo.env_ok "run-b") Demo.w0)
      (run_events Demo.w0 (snd Demo.run_ok_b)) ∧
  output_path Demo.svc "run-a" ≠
    output_path Demo.svc (uuidv4 (Demo.env_ok "run-b") Demo.w0).
Proof.
  destruct (temp_paths_not_scoped_to_run Demo.svc (Demo.env_ok "run-b") Demo.script2
              Demo.images12 [] Demo.w0 (fst Demo.run_ok_b) (snd Demo.run_ok_b))
    as (_ & Hmanifest & Houtput); [vm_compute; reflexivity|].
  split.
  - apply Hmanifest. vm_compute. reflexivity.
  - apply Houtput. vm_compute. discriminate.
Defined.

(** ** C6: no valid segments *)

Lemma replay_warnings fs scenes :
  replay fs (map (fun scene => EvWarnSkip (Scene.id scene)) scenes) = fs.
Proof. induction scenes as [|scene scenes IH]; [done | exact IH]. Qed.

(** C6, as stated, fails.  The only scene has an image and cannot be
    encoded.  No segment is produced, yet the error createVideo rejects with
    is the error of ffmpeg, not the error for a run without segments. *)
Lemma unencodable_scene_rejects_with_encoder_error :
  createVideo Demo.svc (Demo.env_failing "/app/temp/segments/segment_0.mp4")
    Demo.script1 [Demo.image1] [] Demo.w0 =
  (Rejected Demo.ffmpeg_error,
   mkWorld ∅ [EvUuid "run-a";
              EvFfmpeg Demo.silent_command1 (Some Demo.ffmpeg_error);
              EvConsoleError Demo.ffmpeg_error]) ∧
  Demo.ffmpeg_error ≠ no_segments_error.
Proof. split; [vm_compute; reflexivity | discriminate]. Qed.

(** C6, amended: when every scene is skipped for want of an image,
    createVideo rejects with "No valid segments created"; it has run ffmpeg
    not once and the files on disk are those from before the run, so no
    output file is written.  In any run, the concatenation command is only
    run when some scene has an image and the segment of every such scene
    has been encoded. *)
Theorem no_valid_segments this env script images audioFiles w :
  (Forall (fun scene => has_image images scene = false) (Script.scenes script) →
   createVideo this env script images audioFiles w =
     (Rejected no_segments_error,
      extend w (EvUuid (uuidv4 env w)
                :: map (fun scene => EvWarnSkip (Scene.id scene)) (Script.scenes script)
                ++ [EvConsoleError no_segments_error])) ∧
   files (snd (createVideo this env script images audioFiles w)) = files w) ∧
  (∀ answer,
     EvFfmpeg (concat_command this (output_path this (uuidv4 env w))) answer
       ∈ run_events w (snd (createVideo this env script images audioFiles w)) →
     encoded_indices images (Script.scenes script) 0 ≠ [] ∧
     all_encoded this (encoded_indices images (Script.scenes script) 0)
       (run_events w (snd (createVideo this env script images audioFiles w)))).
Proof.
  destruct (createVideo_run this env script images audioFiles w) as (o & evs & Heq & Hcase).
  rewrite Heq. simpl. rewrite run_events_extend. split.
  - intros Hskipped.
    pose proof (proj2 (encoded_indices_nil images (Script.scenes script) 0) Hskipped) as Hnone.
    inversion Hcase as [evs0 cmd e Hseg Hno Hk | evs0 Hnil Hevs | evs0 e Hne Hseg Hno Hall
                       | evs0 size Hne Hseg Hno Hall]; subst; try done.
    + destruct Hk as (k & Hk & _). rewrite Hnone in Hk. by apply elem_of_nil in Hk.
    + split; [done|]. rewrite replay_cons, replay_app, replay_warnings. done.
  - assert (Hloop : ∀ evs0 answer,
              Forall (segment_event this (encoded_indices images (Script.scenes script) 0)) evs0 →
              EvFfmpeg (concat_command this (output_path this (uuidv4 env w))) answer ∉ evs0).
    { intros evs0 answer Hseg Hin. rewrite Forall_forall in Hseg.
      destruct (Hseg _ Hin) as (k & _ & Henc). by eapply encodes_not_concat. }
    assert (Hmore : ∀ evs0 evs1,
              all_encoded this (encoded_indices images (Script.scenes script) 0) evs0 →
              all_encoded this (encoded_indices images (Script.scenes script) 0)
                (EvUuid (uuidv4 env w) :: evs0 ++ evs1)).
    { intros evs0 evs1 Hall k Hk. destruct (Hall k Hk) as (cmd & Hin & Hout).
      exists cmd. split; [|done]. rewrite elem_of_cons, elem_of_app. auto. }
    intros answer Hin.
    inversion Hcase as [evs0 cmd e Hseg Hno Hk | evs0 Hnil Hevs | evs0 e Hne Hseg Hno Hall
                       | evs0 size Hne Hseg Hno Hall]; subst;
      rewrite elem_of_cons, elem_of_app in Hin.
    + destruct Hin as [? | [Hin | Hin]]; [done | by apply Hloop in Hin |].
      rewrite elem_of_cons, elem_of_cons, elem_of_nil in Hin.
      destruct Hin as [[= <- _] | [? | []]]; [|done].
      destruct Hk as (k & _ & Henc). by eapply encodes_not_concat in Henc.
    + destruct Hin as [? | [Hin | Hin]]; [done | |].
      * apply list_elem_of_fmap in Hin as (scene & ? & _). done.
      * rewrite elem_of_cons, elem_of_nil in Hin. by destruct Hin as [? | []].
    + split; [done | by apply Hmore].
    + split; [done | by apply Hmore].
Qed.

Lemma no_valid_segments_witness :
  createVideo Demo.svc (Demo.env_ok "run-a") Demo.script2 [] [] Demo.w0 =
    (Rejected no_segments_error,
     extend Demo.w0 [EvUuid "run-a"; EvWarnSkip 1; EvWarnSkip 2;
                        EvConsoleError no_segments_error]) ∧
  encoded_indices Demo.images12 (Script.scenes Demo.script2) 0 ≠ [].
Proof.
  destruct (no_valid_segments Demo.svc (Demo.env_ok "run-a") Demo.script2 [] []
              Demo.w0) as [Hskipped _].
  destruct (no_valid_segments Demo.svc (Demo.env_ok "run-a") Demo.script2
              Demo.images12 [] Demo.w0) as [_ Hconcat].
  split.
  - apply Hskipped. repeat constructor.
  - apply (Hconcat None). apply (bool_decide_unpack _). vm_compute. exact I.
Defined.

(** ** C7: the order of the segments *)

Lemma encoded_indices_sorted images rest : ∀ i, StronglySorted lt (encoded_indices images rest i).
Proof.
  induction rest as [|scene rest IH]; intros i; simpl; [constructor|].
  destruct (has_image images scene); [|done].
  constructor; [done|]. apply Forall_forall.
  intros k (scene' & Hle & _)%encoded_indices_elem. lia.
Qed.

(** C7: the segments handed to the concatenation are those of the scenes
    with an image, by ascending position in the script: the positions are
    strictly increasing, and a position is among them exactly when its scene
    has an image, so that scenes without one leave no gap.  When the scene
    loop resolves, the array it resolves with, which createVideo passes to
    concatenateSegments, holds the segment paths of these positions in that
    order, and the commands that ran are, in the same order, one for each
    of these positions, each rendering the image and the audio found for
    the scene at its position into the segment of that position.  The only
    file a run writes with fs.writeFile is the manifest, and its content is
    one line [file '<segment path>'] for each of these positions, in that
    order, the lines separated by a line feed; a run that ends in success
    has written it, after encoding every one of them. *)
Theorem segments_follow_scene_order this env script images audioFiles w o w' :
  createVideo this env script images audioFiles w = (o, w') →
  StronglySorted lt (encoded_indices images (Script.scenes script) 0) ∧
  (∀ k, k ∈ encoded_indices images (Script.scenes script) 0 ↔
        ∃ scene, Script.scenes script !! k = Some scene ∧ has_image images scene = true) ∧
  (∀ segments w1,
     scene_loop this env images audioFiles (Script.scenes script) 0 []
       (extend w [EvUuid (uuidv4 env w)]) = (Resolved segments, w1) →
     segments = map (segment_path this) (encoded_indices images (Script.scenes script) 0) ∧
     Forall2 (renders this (Script.scenes script) images audioFiles (files w))
       (encoded_indices images (Script.scenes script) 0)
       (omap encoded_by (run_events (extend w [EvUuid (uuidv4 env w)]) w1))) ∧
  (∀ p content, EvWriteFile p content ∈ run_events w w' →
     p = concatFilePath this ∧
     content = String.concat (String (Ascii.ascii_of_nat 10) EmptyString)
                 (map (fun k => "file '" +:+ segment_path this k +:+ "'")
                    (encoded_indices images (Script.scenes script) 0))) ∧
  (is_resolved o = true →
   EvWriteFile (concatFilePath this)
     (String.concat (String (Ascii.ascii_of_nat 10) EmptyString)
        (map (fun k => "file '" +:+ segment_path this k +:+ "'")
           (encoded_indices images (Script.scenes script) 0)))
     ∈ run_events w w' ∧
   all_encoded this (encoded_indices images (Script.scenes script) 0) (run_events w w')).
Proof.
  intros Hrun. rewrite <- !concatContent_lines.
  destruct (createVideo_run this env script images audioFiles w) as (o' & evs & Heq & Hcase).
  rewrite Hrun in Heq. injection Heq as <- ->. rewrite run_events_extend.
  assert (Hloop : ∀ evs0 p content,
            Forall (segment_event this (encoded_indices images (Script.scenes script) 0)) evs0 →
            EvWriteFile p content ∉ evs0).
  { intros evs0 p content Hseg Hin. rewrite Forall_forall in Hseg. by apply Hseg in Hin. }
  split_and!.
  - apply encoded_indices_sorted.
  - intros k. rewrite encoded_indices_elem. setoid_rewrite Nat.sub_0_r.
    split; intros (scene & H); exists scene; [tauto | split_and!; [lia | tauto | tauto]].
  - intros segments w1 Hloop'. split.
    + destruct (scene_loop_run this env images audioFiles (Script.scenes script) 0 []
                  (extend w [EvUuid (uuidv4 env w)]))
        as (evs' & _ & _ & [(Hres & _) | (cmd & e & _ & Hres)]);
        rewrite Hres in Hloop'; [by injection Hloop' as <- _ | discriminate].
    + destruct (scene_loop_renders this env (Script.scenes script) images audioFiles
                  (Script.scenes script) 0 [] _ _ _ (fun j scene Hj => Hj) Hloop')
        as (evs' & -> & _ & Hcmds).
      by rewrite run_events_extend.
  - intros p content Hin.
    inversion Hcase as [evs0 cmd e Hseg Hno Hk | evs0 Hnil Hevs | evs0 e Hne Hseg Hno Hall
                       | evs0 size Hne Hseg Hno Hall]; subst;
      rewrite elem_of_cons, elem_of_app in Hin.
    + destruct Hin as [? | [Hin | Hin]]; [done | by apply Hloop in Hin |].
      rewrite !elem_of_cons, elem_of_nil in Hin. by destruct Hin as [? | [? | []]].
    + destruct Hin as [? | [Hin | Hin]]; [done | |].
      * apply list_elem_of_fmap in Hin as (scene & ? & _). done.
      * rewrite elem_of_cons, elem_of_nil in Hin. by destruct Hin as [? | []].
    + destruct Hin as [? | [Hin | Hin]]; [done | by apply Hloop in Hin |].
      rewrite !elem_of_cons, elem_of_nil in Hin.
      by destruct Hin as [[= -> ->] | [? | [? | []]]].
    + destruct Hin as [? | [Hin | Hin]]; [done | by apply Hloop in Hin |].
      rewrite elem_of_app, !elem_of_cons, elem_of_nil, list_elem_of_fmap in Hin.
      by destruct Hin as [[[= -> ->] | [? | [? | [? | []]]]] | (q & ? & _)].
  - intros Hres.
    inversion Hcase as [| | | evs0 size Hne Hseg Hno Hall]; subst; try discriminate.
    split.
    + rewrite elem_of_cons, elem_of_app. right. right. apply list_elem_of_here.
    + intros k Hk. destruct (Hall k Hk) as (cmd & Hin & Hout).
      exists cmd. split; [|done]. rewrite elem_of_cons, elem_of_app. auto.
Qed.

Lemma segments_follow_scene_order_witness :
  EvWriteFile "/app/temp/concat_list.txt"
    ("file '/app/temp/segments/segment_0.mp4'" +:+
     String (Ascii.ascii_of_nat 10) "file '/app/temp/segments/segment_2.mp4'")
    ∈ run_events Demo.w_audio (snd Demo.run_skip) ∧
  ∀ segments w1,
    scene_loop Demo.svc (Demo.env_ok "run-a") Demo.images13 [Demo.audio3]
      (Script.scenes Demo.script3) 0 [] (extend Demo.w_audio [EvUuid "run-a"]) =
      (Resolved segments, w1) →
    segments = ["/app/temp/segments/segment_0.mp4"; "/app/temp/segments/segment_2.mp4"] ∧
    Forall2 (renders Demo.svc (Script.scenes Demo.script3) Demo.images13 [Demo.audio3]
               (files Demo.w_audio))
      [0; 2]%nat (omap encoded_by (run_events (extend Demo.w_audio [EvUuid "run-a"]) w1)).
Proof.
  destruct (segments_follow_scene_order Demo.svc (Demo.env_ok "run-a") Demo.script3
              Demo.images13 [Demo.audio3] Demo.w_audio (fst Demo.run_skip) (snd Demo.run_skip))
    as (_ & _ & Hsegments & _ & Hmanifest); [vm_compute; reflexivity|].
  split.
  - apply Hmanifest. vm_compute. reflexivity.
  - intros segments w1 Hloop. exact (Hsegments segments w1 Hloop).
Defined.

(** ** C8: the empty script *)

(** C8, as stated, fails.  For a script without scenes createVideo first
    allocates a run identifier and then rejects with the error for a run
    without segments, "No valid segments created"; it has no separate check
    of the script and no separate error for an empty one. *)
Lemma empty_script_allocates_run_identifier :
  createVideo Demo.svc (Demo.env_ok "run-a") Demo.script0 [] [] Demo.w0 =
  (Rejected (Error "No valid segments created"),
   mkWorld ∅ [EvUuid "run-a"; EvConsoleError (Error "No valid segments created")]) ∧
  EvUuid "run-a" ∈ run_events Demo.w0
    (snd (createVideo Demo.svc (Demo.env_ok "run-a") Demo.script0 [] [] Demo.w0)).
Proof.
  split; [vm_compute; reflexivity|].
  apply (bool_decide_unpack _). vm_compute. exact I.
Qed.

(** C8, amended: for a script without scenes createVideo allocates a run
    identifier and rejects with "No valid segments created", the error of a
    run in which every scene was skipped.  It encodes and concatenates
    nothing and leaves the files on disk as they were. *)
Theorem empty_script_has_no_valid_segments this env total images audioFiles w :
  createVideo this env (Script.mk [] total) images audioFiles w =
    (Rejected no_segments_error,
     mkWorld (files w)
       (log w ++ [EvUuid (uuidv4 env w); EvConsoleError no_segments_error])).
Proof.
  unfold createVideo, bind, try_catch, fresh_uuid, emit, throw, ret. simpl.
  by rewrite <- app_assoc.
Qed.

(** ** C9: asset resolution *)

(** [Array.prototype.find]: the first element that satisfies the test. *)
Lemma find_first_match {A} (f : A → bool) (l : list A) (x : A) :
  find f l = Some x ↔
  ∃ before after, l = before ++ x :: after ∧ f x = true ∧ Forall (fun y => f y = false) before.
Proof.
  induction l as [|y l IH]; simpl.
  - split; [done | intros ([|??] & ? & ? & _); done].
  - destruct (f y) eqn:Hy.
    + split.
      * intros [= ->]. exists [], l. by repeat split.
      * intros ([|z before] & after & Heq & Hx & Hbefore).
        -- by injection Heq as ->.
        -- injection Heq as -> _. apply Forall_cons in Hbefore as [Hz _]. congruence.
    + rewrite IH. split.
      * intros (before & after & -> & Hx & Hbefore).
        exists (y :: before), after. split_and!; [done | done | by constructor].
      * intros ([|z before] & after & Heq & Hx & Hbefore).
        -- injection Heq as -> _. congruence.
        -- injection Heq as -> ->. apply Forall_cons in Hbefore as [_ Hbefore].
           by exists before, after.
Qed.

Lemma find_no_match {A} (f : A → bool) (l : list A) :
  find f l = None ↔ Forall (fun y => f y = false) l.
Proof.
  induction l as [|y l IH]; simpl.
  - split; [constructor | done].
  - destruct (f y) eqn:Hy.
    + split; [done | intros [? _]%Forall_cons; congruence].
    + rewrite IH. split; [by constructor | by intros [_ ?]%Forall_cons].
Qed.

(** C9: the image and the audio record of a scene are looked up by equality
    of [sceneId] with the scene's [id]; of several records with that
    [sceneId] the first in the array is taken, and nothing is raised; when
    none has it the result is undefined.  The lookups are functions of the
    arrays and the scene alone: they read no state and change none. *)
Theorem asset_resolution_first_match (images : list Image.t) (audioFiles : list Audio.t)
    (scene : Scene.t) :
  (∀ img, find_image images scene = Some img ↔
     ∃ before after, images = before ++ img :: after ∧
       Image.sceneId img = Scene.id scene ∧
       Forall (fun other => Image.sceneId other ≠ Scene.id scene) before) ∧
  (find_image images scene = None ↔
     Forall (fun other => Image.sceneId other ≠ Scene.id scene) images) ∧
  (∀ aud, find_audio audioFiles scene = Some aud ↔
     ∃ before after, audioFiles = before ++ aud :: after ∧
       Audio.sceneId aud = Scene.id scene ∧
       Forall (fun other => Audio.sceneId other ≠ Scene.id scene) before) ∧
  (find_audio audioFiles scene = None ↔
     Forall (fun other => Audio.sceneId other ≠ Scene.id scene) audioFiles).
Proof.
  unfold find_image, find_audio. split_and!.
  - intros img. rewrite find_first_match.
    setoid_rewrite Z.eqb_eq. by setoid_rewrite Z.eqb_neq.
  - rewrite find_no_match. by setoid_rewrite Z.eqb_neq.
  - intros aud. rewrite find_first_match.
    setoid_rewrite Z.eqb_eq. by setoid_rewrite Z.eqb_neq.
  - rewrite find_no_match. by setoid_rewrite Z.eqb_neq.
Qed.

(** Two images for scene 1: the first one is used. *)
Example duplicate_images_first_wins :
  find_image [Demo.image2;
              Image.mk 1 (Some "/app/temp/images/first.png") "";
              Image.mk 1 (Some "/app/temp/images/second.png") ""] Demo.scene1 =
    Some (Image.mk 1 (Some "/app/temp/images/first.png") "").
Proof. reflexivity. Qed.

(** ** C10: audio generation *)

Section AudioFacts.
Variable this : TTSService.
Variable env : Env.

Lemma speak_run pr text sceneId w :
  speak this env pr text sceneId w =
    match (match pr with
           | ElevenLabs => elevenlabs_post env w text sceneId
           | GoogleTTS => gtts_save env w text sceneId
           end) with
    | None => (Resolved (scene_audio_path this sceneId),
               extend w [EvSpeech pr text (scene_audio_path this sceneId) None])
    | Some err => (Rejected err,
                   extend w [EvSpeech pr text (scene_audio_path this sceneId) (Some err)])
    end.
Proof.
  unfold speak. destruct pr.
  - by destruct (elevenlabs_post env w text sceneId).
  - by destruct (gtts_save env w text sceneId).
Qed.

(** generateSpeech fails only when the provider it ends with fails: Google
    TTS, tried at once without an API key and after the failure of
    ElevenLabs with one. *)
Lemma generateSpeech_rejected text sceneId w e :
  fst (generateSpeech this env text sceneId w) = Rejected e ↔
  if truthy (apiKey this)
  then ∃ e1, elevenlabs_post env w text sceneId = Some e1 ∧
             gtts_save env
               (extend w [EvSpeech ElevenLabs text (scene_audio_path this sceneId) (Some e1)])
               text sceneId = Some e
  else gtts_save env w text sceneId = Some e.
Proof.
  unfold generateSpeech, generateWithElevenLabs, generateWithGoogleTTS, try_catch.
  destruct (truthy (apiKey this)); rewrite !speak_run.
  - destruct (elevenlabs_post env w text sceneId) as [e1|] eqn:H1; simpl.
    + rewrite speak_run. destruct (gtts_save env _ text sceneId) as [e2|] eqn:H2; simpl.
      * split; [intros [= ->]; by exists e1 | intros (? & [= <-] & Hg); congruence].
      * split; [done | intros (? & [= <-] & Hg); congruence].
    + split; [done | by intros (? & ? & _)].
  - destruct (gtts_save env w text sceneId) as [e2|]; simpl; split; congruence.
Qed.

(** The loop never rejects: each scene adds one record. *)
Lemma audio_loop_run rest : ∀ audioFiles w,
  audio_loop this env rest audioFiles w =
    (Resolved (audioFiles ++ audio_records this env rest w), audio_world this env rest w).
Proof.
  induction rest as [|scene rest IH]; intros audioFiles w; simpl.
  - unfold ret. by rewrite app_nil_r.
  - unfold audio_step, bind at 1, try_catch, bind at 1.
    destruct (generateSpeech this env (Scene.narration scene) (Scene.id scene) w)
      as [[audioPath|e] w1]; simpl;
      unfold bind, delay; rewrite emit_run by done; rewrite IH;
      by rewrite <- app_assoc.
Qed.

Lemma audio_records_length rest : ∀ w, length (audio_records this env rest w) = length rest.
Proof. induction rest as [|scene rest IH]; intros w; simpl; [done | by rewrite IH]. Qed.

Lemma audio_step_sceneId scene w : Audio.sceneId (fst (audio_step this env scene w)) = Scene.id scene.
Proof. unfold audio_step. by destruct (generateSpeech _ _ _ _ _) as [[?|?] ?]. Qed.

Lemma audio_records_sceneId rest : ∀ w,
  map Audio.sceneId (audio_records this env rest w) = map Scene.id rest.
Proof.
  induction rest as [|scene rest IH]; intros w; simpl; [done|].
  by rewrite audio_step_sceneId, IH.
Qed.

(** The record of the scene at position [i] is the one pushed in the
    world the scenes before it left behind. *)
Lemma audio_records_lookup rest : ∀ w i scene,
  rest !! i = Some scene →
  audio_records this env rest w !! i =
    Some (fst (audio_step this env scene (audio_world this env (take i rest) w))).
Proof.
  induction rest as [|scene0 rest IH]; intros w i scene Hlook; [done|].
  destruct i as [|i]; simpl in *.
  - by injection Hlook as ->.
  - by apply IH.
Qed.

End AudioFacts.

(** C10: generateAudioForScenes never rejects and resolves with one record
    per scene, in the order of the scenes.  The record of a scene for which
    generateSpeech - ElevenLabs with Google TTS as its fallback, or Google
    TTS alone - fails has a null path and [silent] set; the record of a
    scene for which it succeeds has the path of the audio file. *)
Theorem generateAudioForScenes_never_rejects this env script w :
  ∃ audioFiles w',
    generateAudioForScenes this env script w = (Resolved audioFiles, w') ∧
    length audioFiles = length (Script.scenes script) ∧
    map Audio.sceneId audioFiles = map Scene.id (Script.scenes script) ∧
    ∀ i scene, Script.scenes script !! i = Some scene →
      match fst (generateSpeech this env (Scene.narration scene) (Scene.id scene)
                   (snd (audio_loop this env (take i (Script.scenes script)) [] w))) with
      | Resolved audioPath =>
          audioFiles !! i =
            Some (Audio.mk (Scene.id scene) (Some audioPath) (Scene.duration scene) false)
      | Rejected _ =>
          audioFiles !! i = Some (Audio.mk (Scene.id scene) None (Scene.duration scene) true)
      end.
Proof.
  exists (audio_records this env (Script.scenes script) w),
         (audio_world this env (Script.scenes script) w).
  unfold generateAudioForScenes. rewrite audio_loop_run. split_and!.
  - done.
  - apply audio_records_length.
  - apply audio_records_sceneId.
  - intros i scene Hlook. rewrite audio_loop_run. simpl.
    rewrite (audio_records_lookup this env _ w i scene Hlook).
    unfold audio_step. by destruct (generateSpeech _ _ _ _ _) as [[audioPath|e] w1].
Qed.

Lemma generateAudioForScenes_never_rejects_witness :
  fst (generateAudioForScenes Demo.tts Demo.env_speech_down Demo.script2 Demo.w0) =
    Resolved [Audio.mk 1 (Some "/app/temp/audio/scene_1.mp3") 30 false;
              Audio.mk 2 None 45 true].
Proof.
  destruct (generateAudioForScenes_never_rejects Demo.tts Demo.env_speech_down
              Demo.script2 Demo.w0) as (audioFiles & w' & Hrun & Hlen & Hids & Hrecords).
  rewrite Hrun. simpl. f_equal.
  pose proof (Hrecords 0%nat Demo.scene1 eq_refl) as H1.
  pose proof (Hrecords 1%nat Demo.scene2 eq_refl) as H2.
  vm_compute in H1, H2.
  destruct audioFiles as [|a1 [|a2 [|a3 audioFiles]]]; try discriminate.
  simpl in H1, H2. by injection H1 as ->; injection H2 as ->.
Defined.

(** * Further properties of the services *)

(** ** VideoService *)

Section VideoTrace.
Variable this : VideoService.
Variable env : Env.

(** A loop that resolves has handled the scenes one by one, in order: a
    warning for a scene without an image, a successful ffmpeg run for a
    scene with one. *)
Lemma scene_loop_resolved_trace images audioFiles rest : ∀ i segments w segments' w',
  scene_loop this env images audioFiles rest i segments w = (Resolved segments', w') →
  ∃ evs,
    w' = extend w evs ∧
    length evs = length rest ∧
    omap skipped_scene evs =
      map Scene.id (filter (fun scene => has_image images scene = false) rest) ∧
    omap encoded_file evs = map (segment_path this) (encoded_indices images rest i).
Proof.
  induction rest as [|scene rest IH]; intros i segments w segments' w' Hloop; simpl in Hloop.
  - injection Hloop as <- <-. exists []. by rewrite extend_nil.
  - fold (has_image images scene) in Hloop. simpl.
    destruct (has_image images scene) eqn:Himg; simpl in Hloop; unfold bind in Hloop.
    + rewrite createSegment_run in Hloop. simpl in Hloop.
      match type of Hloop with context [ffmpeg_run env w ?c] => set (cmd := c) in * end.
      destruct (ffmpeg_run env w cmd) as [err|]; [discriminate|].
      destruct (IH _ _ _ _ _ Hloop) as (evs & -> & Hlen & Hskip & Hfiles).
      exists (EvFfmpeg cmd None :: evs). rewrite extend_cons. split_and!; [done | | |].
      * simpl. by rewrite Hlen.
      * rewrite filter_cons_False by (rewrite Himg; done). done.
      * change (omap encoded_file (EvFfmpeg cmd None :: evs))
          with (output cmd :: omap encoded_file evs).
        rewrite Hfiles. simpl. f_equal. apply segment_command_output.
    + rewrite emit_run in Hloop by done.
      destruct (IH _ _ _ _ _ Hloop) as (evs & -> & Hlen & Hskip & Hfiles).
      exists (EvWarnSkip (Scene.id scene) :: evs). rewrite extend_cons. split_and!; [done | | |].
      * simpl. by rewrite Hlen.
      * rewrite filter_cons_True by done.
        change (omap skipped_scene (EvWarnSkip (Scene.id scene) :: evs))
          with (Scene.id scene :: omap skipped_scene evs).
        by rewrite Hskip.
      * done.
Qed.

(** What a run of createVideo that resolves consists of. *)
Lemma createVideo_resolved_inv script images audioFiles w result w' :
  createVideo this env script images audioFiles w = (Resolved result, w') →
  ∃ evs size,
    length evs = length (Script.scenes script) ∧
    omap skipped_scene evs =
      map Scene.id (filter (fun scene => has_image images scene = false) (Script.scenes script)) ∧
    omap encoded_file evs =
      map (segment_path this) (encoded_indices images (Script.scenes script) 0) ∧
    encoded_indices images (Script.scenes script) 0 ≠ [] ∧
    result = VideoResult.mk (uuidv4 env w) (output_path this (uuidv4 env w))
               (getVideoUrl (uuidv4 env w)) size (Script.totalDuration script) ∧
    w' = extend w
           (EvUuid (uuidv4 env w) :: evs ++
            [EvWriteFile (concatFilePath this)
               (concatContent (map (segment_path this)
                                 (encoded_indices images (Script.scenes script) 0)));
             EvFfmpeg (concat_command this (output_path this (uuidv4 env w))) None;
             EvUnlink (concatFilePath this);
             EvStat (output_path this (uuidv4 env w))] ++
            map EvUnlink (map (segment_path this)
                            (encoded_indices images (Script.scenes script) 0))).
Proof.
  intros Hrun. unfold createVideo in Hrun.
  rewrite (bind_resolved _ _ _ _ _ (fresh_uuid_run env w)) in Hrun.
  set (videoId := uuidv4 env w) in *. set (w0 := extend w [EvUuid videoId]) in *.
  unfold try_catch in Hrun.
  match type of Hrun with context [match ?body w0 with _ => _ end] =>
    destruct (body w0) as [[result'|e] w2] eqn:Hbody end.
  2:{ unfold bind, emit, throw in Hrun. discriminate. }
  injection Hrun as -> ->. unfold bind at 1 in Hbody.
  destruct (scene_loop this env images audioFiles (Script.scenes script) 0 [] w0)
    as [[segments|e] w1] eqn:Hloop; [|discriminate].
  destruct (scene_loop_run this env images audioFiles (Script.scenes script) 0 [] w0)
    as (evs' & _ & _ & [(Hres & _) | (cmd & e & _ & Hres)]);
    rewrite Hres in Hloop; [|discriminate].
  injection Hloop as <- <-. simpl in Hbody.
  destruct (scene_loop_resolved_trace _ _ _ _ _ _ _ _ Hres) as (evs & Hw1 & Hlen & Hskip & Hfiles).
  set (idxs := encoded_indices images (Script.scenes script) 0) in *.
  unfold bind at 1 in Hbody.
  destruct (length (map (segment_path this) idxs) =? 0)%nat eqn:Hempty; [discriminate|].
  unfold ret at 1 in Hbody.
  unfold bind at 1 in Hbody. rewrite concatenateSegments_run in Hbody. simpl in Hbody.
  destruct (ffmpeg_run env _ (concat_command this (output_path this videoId))); [discriminate|].
  unfold bind at 1 in Hbody. rewrite stat_run in Hbody.
  case_bool_decide; [|discriminate].
  unfold bind at 1 in Hbody. rewrite cleanupSegments_run in Hbody.
  unfold ret in Hbody. injection Hbody as <- <-.
  eexists evs, _. split_and!; try done.
  - intros Hnil. by rewrite Hnil in Hempty.
  - rewrite Hw1. subst w0. rewrite !extend_app. reflexivity.
Qed.

End VideoTrace.

Lemma segment_path_inj this i j : segment_path this i = segment_path this j → i = j.
Proof.
  unfold segment_path, path_join. intros Heq.
  do 3 apply (inj (String.app _)) in Heq.
  apply append_inj_suffix in Heq. by apply (inj pretty) in Heq.
Qed.

Lemma encoded_indices_NoDup images rest : ∀ i, NoDup (encoded_indices images rest i).
Proof.
  induction rest as [|scene rest IH]; intros i; simpl; [constructor|].
  destruct (has_image images scene); [|done].
  constructor; [|done].
  intros (scene' & Hle & _)%encoded_indices_elem. lia.
Qed.

(** X1: the segment files of a run are pairwise distinct: scenes at
    different positions are never encoded to the same file. *)
Theorem segment_files_distinct this images scenes :
  NoDup (map (segment_path this) (encoded_indices images scenes 0)).
Proof.
  apply (NoDup_fmap_2_strong (segment_path this)); [|apply encoded_indices_NoDup].
  intros i j _ _. apply segment_path_inj.
Qed.

(** Nothing but an unlink of [p] removes the file [p]. *)
Lemma replay_preserved fs evs p :
  p ∈ fs → Forall (fun ev => ev ≠ EvUnlink p) evs → p ∈ replay fs evs.
Proof.
  intros Hp Hevs. revert fs Hp. induction Hevs as [|ev evs Hev _ IH]; intros fs Hp; [done|].
  rewrite replay_cons. apply IH.
  destruct ev as [| cmd [e|] | | q | | | | pr text ap [e|] |]; simpl; try done; set_solver.
Qed.

(** The output file of a run that resolves is on disk when the run ends,
    unless it sits at the path of a segment. *)
Lemma createVideo_resolved_output this env script images audioFiles w result w' :
  createVideo this env script images audioFiles w = (Resolved result, w') →
  output_path this (uuidv4 env w)
    ∉ map (segment_path this) (encoded_indices images (Script.scenes script) 0) →
  VideoResult.videoId result = uuidv4 env w ∧
  VideoResult.path result = output_path this (uuidv4 env w) ∧
  output_path this (uuidv4 env w) ∈ files w'.
Proof.
  intros Hrun Hfresh.
  destruct (createVideo_resolved_inv this env _ _ _ _ _ _ Hrun)
    as (evs & size & _ & _ & _ & _ & -> & ->).
  simpl. split_and!; [done .. |].
  rewrite replay_app, !replay_cons. simpl. rewrite replay_unlinks. split; [|done].
  pose proof (output_path_not_manifest this (uuidv4 env w)). set_solver.
Qed.

(** X2: a run of createVideo that resolves returns the identifier it drew,
    the output path and the streaming url built from it, and the output
    file is on disk at that path when the run ends, provided the output
    path is not the path of one of the run's segments. *)
Theorem createVideo_output_exists this env script images audioFiles w result w' :
  createVideo this env script images audioFiles w = (Resolved result, w') →
  output_path this (uuidv4 env w)
    ∉ map (segment_path this) (encoded_indices images (Script.scenes script) 0) →
  VideoResult.videoId result = uuidv4 env w ∧
  VideoResult.path result = output_path this (VideoResult.videoId result) ∧
  VideoResult.url result = getVideoUrl (VideoResult.videoId result) ∧
  VideoResult.path result ∈ files w'.
Proof.
  intros Hrun Hfresh.
  destruct (createVideo_resolved_inv this env _ _ _ _ _ _ Hrun)
    as (evs & size & _ & _ & _ & _ & -> & ->).
  simpl. split_and!; [done .. |].
  rewrite replay_app, !replay_cons. simpl. rewrite replay_unlinks. split; [|done].
  pose proof (output_path_not_manifest this (uuidv4 env w)). set_solver.
Qed.

Lemma createVideo_output_exists_witness :
  VideoResult.path Demo.result_a ∈ files (snd Demo.run_ok).
Proof.
  apply (createVideo_output_exists Demo.svc (Demo.env_ok "run-a") Demo.script2 Demo.images12 []
           Demo.w0 Demo.result_a (snd Demo.run_ok)).
  - vm_compute. reflexivity.
  - apply (bool_decide_unpack _). vm_compute. exact I.
Defined.

(** X3: in a run of createVideo that resolves, the scenes skipped for want
    of an image are warned about once each, in the order of the script, and
    nothing else is warned about. *)
Theorem createVideo_warns_each_skipped_scene this env script images audioFiles w result w' :
  createVideo this env script images audioFiles w = (Resolved result, w') →
  omap skipped_scene (run_events w w') =
    map Scene.id (filter (fun scene => has_image images scene = false) (Script.scenes script)).
Proof.
  intros Hrun.
  destruct (createVideo_resolved_inv this env _ _ _ _ _ _ Hrun)
    as (evs & size & _ & Hskip & _ & _ & _ & ->).
  rewrite run_events_extend. rewrite app_comm_cons, !omap_app, <- Hskip.
  change (omap skipped_scene (EvUuid (uuidv4 env w) :: evs)) with (omap skipped_scene evs).
  assert (Hnone : ∀ paths, omap skipped_scene (map EvUnlink paths) = []).
  { induction paths; [done | done]. }
  rewrite Hnone. by rewrite !app_nil_r.
Qed.

Lemma createVideo_warns_each_skipped_scene_witness :
  omap skipped_scene
    (run_events Demo.w0
       (snd (createVideo Demo.svc (Demo.env_ok "run-a") Demo.script2 [Demo.image1] [] Demo.w0))) =
  [2].
Proof.
  rewrite (createVideo_warns_each_skipped_scene Demo.svc (Demo.env_ok "run-a") Demo.script2
             [Demo.image1] [] Demo.w0 Demo.result_a).
  - reflexivity.
  - vm_compute. reflexivity.
Defined.

(** X4: in a run of createVideo that resolves, the successful ffmpeg runs
    are, in this order, one for the segment of each scene with an image, by
    position in the script, and then a single one that writes the output
    file. *)
Theorem createVideo_encodes_then_concatenates this env script images audioFiles w result w' :
  createVideo this env script images audioFiles w = (Resolved result, w') →
  omap encoded_file (run_events w w') =
    map (segment_path this) (encoded_indices images (Script.scenes script) 0)
    ++ [output_path this (uuidv4 env w)].
Proof.
  intros Hrun.
  destruct (createVideo_resolved_inv this env _ _ _ _ _ _ Hrun)
    as (evs & size & _ & _ & Hfiles & _ & _ & ->).
  rewrite run_events_extend. rewrite app_comm_cons, !omap_app, <- Hfiles.
  change (omap encoded_file (EvUuid (uuidv4 env w) :: evs)) with (omap encoded_file evs).
  assert (Hnone : ∀ paths, omap encoded_file (map EvUnlink paths) = []).
  { induction paths; [done | done]. }
  rewrite Hnone. by rewrite app_nil_r.
Qed.

Lemma createVideo_encodes_then_concatenates_witness :
  omap encoded_file (run_events Demo.w0 (snd Demo.run_ok)) =
  ["/app/temp/segments/segment_0.mp4"; "/app/temp/segments/segment_1.mp4";
   "/app/output/videos/run-a.mp4"].
Proof.
  rewrite (createVideo_encodes_then_concatenates Demo.svc (Demo.env_ok "run-a") Demo.script2
             Demo.images12 [] Demo.w0 Demo.result_a).
  - vm_compute. reflexivity.
  - vm_compute. reflexivity.
Defined.

(** X5: createVideo deletes none of the files it finds on disk, whatever
    the outcome of the run, except files at the paths of its own segments
    and of its manifest: the images and audio files it is given stay. *)
Theorem createVideo_keeps_other_files this env script images audioFiles w o w' p :
  createVideo this env script images audioFiles w = (o, w') →
  p ∈ files w →
  p ≠ concatFilePath this →
  p ∉ map (segment_path this) (encoded_indices images (Script.scenes script) 0) →
  p ∈ files w'.
Proof.
  intros Hrun Hp Hmanifest Hsegments.
  destruct (createVideo_run this env script images audioFiles w) as (o' & evs & Heq & Hcase).
  rewrite Hrun in Heq. injection Heq as <- ->. simpl.
  apply replay_preserved; [done|].
  assert (Hloop : ∀ evs0, Forall (fun ev => is_unlink ev = false) evs0 →
                          Forall (fun ev => ev ≠ EvUnlink p) evs0).
  { intros evs0 Hno. eapply Forall_impl; [exact Hno|]. by intros ev Hev ->. }
  inversion Hcase as [evs0 cmd e Hseg Hno Hk | evs0 Hnil Hevs | evs0 e Hne Hseg Hno Hall
                     | evs0 size Hne Hseg Hno Hall]; subst;
    (constructor; [done|]); rewrite ?Forall_app; repeat split;
    try (by apply Hloop); try (by repeat constructor).
  - apply Forall_fmap, Forall_true. done.
  - repeat constructor; try done. by intros [= <-].
  - apply Forall_fmap, Forall_forall. intros q Hq [= <-]. done.
Qed.

Lemma createVideo_keeps_other_files_witness :
  "/app/temp/images/scene_1.png" ∈
    files (snd (createVideo Demo.svc (Demo.env_ok "run-a") Demo.script2 Demo.images12 []
                  (mkWorld {["/app/temp/images/scene_1.png"]} []))).
Proof.
  apply (createVideo_keeps_other_files Demo.svc (Demo.env_ok "run-a") Demo.script2 Demo.images12 []
           (mkWorld {["/app/temp/images/scene_1.png"]} []) (Resolved Demo.result_a)).
  - vm_compute. reflexivity.
  - apply (bool_decide_unpack _). vm_compute. exact I.
  - discriminate.
  - apply (bool_decide_unpack _). vm_compute. exact I.
Defined.

(** X6: cleanupSegments never rejects, even when a segment is already
    gone; afterwards the files on disk are those from before less the
    listed paths, so that running it a second time changes nothing. *)
Theorem cleanupSegments_removes_listed_paths segments w :
  fst (cleanupSegments segments w) = Resolved tt ∧
  (∀ p, p ∈ files (snd (cleanupSegments segments w)) ↔ p ∈ files w ∧ p ∉ segments) ∧
  files (snd (cleanupSegments segments (snd (cleanupSegments segments w)))) =
    files (snd (cleanupSegments segments w)).
Proof.
  rewrite !cleanupSegments_run. simpl. split_and!; [done | apply replay_unlinks |].
  apply set_eq. intros p. rewrite !replay_unlinks. tauto.
Qed.

(** ** TTSService *)

Lemma path_join_nonempty dir name : path_join dir name ≠ "".
Proof. unfold path_join. by destruct dir. Qed.

Lemma truthy_path_join dir name : truthy (Some (path_join dir name)) = true.
Proof.
  simpl. apply negb_true_iff, String.eqb_neq, path_join_nonempty.
Qed.

Section SpeechFacts.
Variable this : TTSService.
Variable env : Env.

(** The provider calls of generateSpeech and their outcome. *)
Lemma generateSpeech_run text sceneId w :
  generateSpeech this env text sceneId w =
    let p := scene_audio_path this sceneId in
    if truthy (apiKey this) then
      match elevenlabs_post env w text sceneId with
      | None => (Resolved p, extend w [EvSpeech ElevenLabs text p None])
      | Some e1 =>
          match gtts_save env (extend w [EvSpeech ElevenLabs text p (Some e1)]) text sceneId with
          | None =>
              (Resolved p,
               extend w [EvSpeech ElevenLabs text p (Some e1); EvSpeech GoogleTTS text p None])
          | Some e2 =>
              (Rejected e2,
               extend w [EvSpeech ElevenLabs text p (Some e1);
                         EvSpeech GoogleTTS text p (Some e2)])
          end
      end
    else
      match gtts_save env w text sceneId with
      | None => (Resolved p, extend w [EvSpeech GoogleTTS text p None])
      | Some e => (Rejected e, extend w [EvSpeech GoogleTTS text p (Some e)])
      end.
Proof.
  unfold generateSpeech, generateWithElevenLabs, generateWithGoogleTTS, try_catch. simpl.
  destruct (truthy (apiKey this)); rewrite speak_run.
  - destruct (elevenlabs_post env w text sceneId) as [e1|]; [|done].
    rewrite speak_run. destruct (gtts_save env _ text sceneId) as [e2|]; by rewrite extend_app.
  - by destruct (gtts_save env w text sceneId).
Qed.

(** One step of the audio loop: either the speech was generated, the
    record points to the audio file of the scene and that file is the only
    one added, or it was not, the record is silent and no file is added. *)
Lemma audio_step_cases scene w :
  (∃ evs,
     audio_step this env scene w =
       (audio_record scene (scene_audio_path this (Scene.id scene)), extend w evs) ∧
     ∀ p, p ∈ replay (files w) evs ↔ p ∈ files w ∨ p = scene_audio_path this (Scene.id scene)) ∨
  (∃ evs,
     audio_step this env scene w = (silent_record scene, extend w evs) ∧
     ∀ p, p ∈ replay (files w) evs ↔ p ∈ files w).
Proof.
  unfold audio_step. rewrite generateSpeech_run. cbv zeta.
  set (text := Scene.narration scene). set (path := scene_audio_path this (Scene.id scene)).
  destruct (truthy (apiKey this)).
  - destruct (elevenlabs_post env w text (Scene.id scene)) as [e1|].
    + destruct (gtts_save env (extend w [EvSpeech ElevenLabs text path (Some e1)]) text
                  (Scene.id scene)) as [e2|]; [right | left];
        eexists; (split; [by rewrite extend_app|]); intros p; unfold replay; simpl; set_solver.
    + left. eexists. split; [by rewrite extend_app|].
      intros p. unfold replay. simpl. set_solver.
  - destruct (gtts_save env w text (Scene.id scene)) as [e2|]; [right | left];
      eexists; (split; [by rewrite extend_app|]); intros p; unfold replay; simpl; set_solver.
Qed.

Lemma audio_paths_record scene :
  audio_paths [audio_record scene (scene_audio_path this (Scene.id scene))] =
    [scene_audio_path this (Scene.id scene)].
Proof.
  unfold audio_paths, audio_record, scene_audio_path.
  cbn [omap list_omap Audio.path]. by rewrite truthy_path_join.
Qed.

Lemma audio_step_files scene w p :
  p ∈ files (snd (audio_step this env scene w)) ↔
  p ∈ files w ∨ p ∈ audio_paths [fst (audio_step this env scene w)].
Proof.
  destruct (audio_step_cases scene w) as [(evs & -> & Hfiles) | (evs & -> & Hfiles)];
    cbn [fst snd]; change (files (extend w evs)) with (replay (files w) evs).
  - rewrite Hfiles, audio_paths_record. set_solver.
  - rewrite Hfiles. unfold audio_paths. simpl. set_solver.
Qed.

Lemma audio_step_record scene w :
  let audio := fst (audio_step this env scene w) in
  Audio.sceneId audio = Scene.id scene ∧
  match Audio.path audio with
  | Some p => p = scene_audio_path this (Scene.id scene) ∧
              p ∈ files (snd (audio_step this env scene w)) ∧
              Audio.silent audio = false
  | None => Audio.silent audio = true
  end.
Proof.
  destruct (audio_step_cases scene w) as [(evs & -> & Hfiles) | (evs & -> & Hfiles)]; simpl.
  - split_and!; try done. apply Hfiles. by right.
  - done.
Qed.

Lemma audio_paths_cons audio audioFiles :
  audio_paths (audio :: audioFiles) = audio_paths [audio] ++ audio_paths audioFiles.
Proof. unfold audio_paths. simpl. by destruct (if truthy _ then _ else _). Qed.

Lemma audio_world_files rest : ∀ w p,
  p ∈ files (audio_world this env rest w) ↔
  p ∈ files w ∨ p ∈ audio_paths (audio_records this env rest w).
Proof.
  induction rest as [|scene rest IH]; intros w p; cbn [audio_world audio_records].
  - unfold audio_paths. simpl. set_solver.
  - rewrite (audio_paths_cons _ (audio_records this env rest _)), elem_of_app.
    rewrite IH, audio_step_files. tauto.
Qed.

End SpeechFacts.

Lemma TTSService_cleanup_run audioFiles : ∀ w,
  TTSService_cleanup audioFiles w =
    (Resolved tt, extend w (map EvUnlink (audio_paths audioFiles))).
Proof.
  induction audioFiles as [|audio audioFiles IH]; intros w; simpl.
  - unfold ret. by rewrite extend_nil.
  - unfold bind, audio_paths. simpl.
    destruct (Audio.path audio) as [p|] eqn:Hpath; simpl.
    + destruct (negb (String.eqb p "")); simpl.
      * rewrite unlink_quiet_run, IH. by rewrite extend_cons.
      * apply IH.
    + apply IH.
Qed.

(** X7: without an API key generateSpeech asks Google TTS and never
    ElevenLabs; with a key it asks ElevenLabs first and Google TTS only
    after ElevenLabs failed.  When it resolves, it resolves with the audio
    path of the scene, at which a file then exists. *)
Theorem generateSpeech_provider_order this env text sceneId w :
  omap speech_call (run_events w (snd (generateSpeech this env text sceneId w))) =
    (if truthy (apiKey this)
     then match elevenlabs_post env w text sceneId with
          | None => [ElevenLabs]
          | Some _ => [ElevenLabs; GoogleTTS]
          end
     else [GoogleTTS]) ∧
  (∀ p, fst (generateSpeech this env text sceneId w) = Resolved p →
        p = scene_audio_path this sceneId ∧
        p ∈ files (snd (generateSpeech this env text sceneId w))).
Proof.
  rewrite generateSpeech_run. simpl.
  destruct (truthy (apiKey this)).
  - destruct (elevenlabs_post env w text sceneId) as [e1|].
    + destruct (gtts_save env _ text sceneId) as [e2|]; simpl; rewrite run_events_extend;
        (split; [done|]); intros p [= <-]. split; [done|]. unfold replay. simpl. set_solver.
    + simpl. rewrite run_events_extend. split; [done|]. intros p [= <-].
      split; [done|]. unfold replay. simpl. set_solver.
  - destruct (gtts_save env w text sceneId) as [e2|]; simpl; rewrite run_events_extend;
      (split; [done|]); intros p [= <-]. split; [done|]. unfold replay. simpl. set_solver.
Qed.

Lemma generateSpeech_provider_order_witness :
  scene_audio_path Demo.tts 1
    ∈ files (snd (generateSpeech Demo.tts (Demo.env_ok "run-a") "Welcome" 1 Demo.w0)).
Proof.
  destruct (generateSpeech_provider_order Demo.tts (Demo.env_ok "run-a") "Welcome" 1 Demo.w0)
    as [_ Hresolved].
  destruct (Hresolved (scene_audio_path Demo.tts 1)) as [_ Hin].
  - vm_compute. reflexivity.
  - exact Hin.
Defined.

(** X8: generateAudioForScenes deletes nothing, and every record it returns
    either points to the audio file of its scene, which is on disk when the
    function returns, and is not marked silent, or has no path and is
    marked silent. *)
Theorem generated_audio_files_exist this env script w audioFiles w' :
  generateAudioForScenes this env script w = (Resolved audioFiles, w') →
  (∀ p, p ∈ files w → p ∈ files w') ∧
  ∀ audio, audio ∈ audioFiles →
    match Audio.path audio with
    | Some p => p = scene_audio_path this (Audio.sceneId audio) ∧ p ∈ files w' ∧
                Audio.silent audio = false
    | None => Audio.silent audio = true
    end.
Proof.
  unfold generateAudioForScenes. rewrite audio_loop_run. simpl. intros [= <- <-]. split.
  - intros p Hp. apply audio_world_files. by left.
  - generalize (Script.scenes script) w. clear script w.
    induction l as [|scene rest IH]; intros w audio Hin; simpl in Hin.
    + by apply elem_of_nil in Hin.
    + apply elem_of_cons in Hin as [-> | Hin]; [|by apply IH].
      destruct (audio_step_record this env scene w) as [Hid Hrec]. simpl in *.
      rewrite Hid. destruct (Audio.path _) as [p|]; [|done].
      destruct Hrec as (-> & Hfile & Hsilent). split_and!; [done | | done].
      apply audio_world_files. by left.
Qed.

Lemma generated_audio_files_exist_witness :
  "/app/temp/audio/scene_1.mp3" ∈
    files (snd (generateAudioForScenes Demo.tts Demo.env_speech_down Demo.script2 Demo.w0)).
Proof.
  destruct (generated_audio_files_exist Demo.tts Demo.env_speech_down Demo.script2 Demo.w0
              [Audio.mk 1 (Some "/app/temp/audio/scene_1.mp3") 30 false; Audio.mk 2 None 45 true]
              (snd (generateAudioForScenes Demo.tts Demo.env_speech_down Demo.script2 Demo.w0)))
    as [_ Hrecords]; [vm_compute; reflexivity|].
  apply (Hrecords (Audio.mk 1 (Some "/app/temp/audio/scene_1.mp3") 30 false)).
  apply list_elem_of_here.
Defined.

(** X9: cleanup of TTSService never rejects, unlinks the files of the
    records that have a path and those only, and leaves every other file in
    place. *)
Theorem TTSService_cleanup_removes_audio audioFiles w :
  fst (TTSService_cleanup audioFiles w) = Resolved tt ∧
  run_events w (snd (TTSService_cleanup audioFiles w)) = map EvUnlink (audio_paths audioFiles) ∧
  ∀ p, p ∈ files (snd (TTSService_cleanup audioFiles w)) ↔
       p ∈ files w ∧ p ∉ audio_paths audioFiles.
Proof.
  rewrite TTSService_cleanup_run. simpl. rewrite run_events_extend.
  split_and!; [done | done | apply replay_unlinks].
Qed.

(** X10: generating the audio of a script and then cleaning it up leaves on
    disk exactly the files from before that are not at the path of a
    generated audio file: no audio file of the run survives. *)
Theorem audio_generation_then_cleanup this env script w audioFiles w1 :
  generateAudioForScenes this env script w = (Resolved audioFiles, w1) →
  ∀ p, p ∈ files (snd (TTSService_cleanup audioFiles w1)) ↔
       p ∈ files w ∧ p ∉ audio_paths audioFiles.
Proof.
  unfold generateAudioForScenes. rewrite audio_loop_run. intros [= <- <-] p.
  rewrite TTSService_cleanup_run. simpl. rewrite replay_unlinks, audio_world_files.
  simpl. tauto.
Qed.

Lemma audio_generation_then_cleanup_witness :
  "/app/temp/audio/scene_1.mp3" ∉
    files (snd (TTSService_cleanup
                  [Audio.mk 1 (Some "/app/temp/audio/scene_1.mp3") 30 false;
                   Audio.mk 2 None 45 true]
                  (snd (generateAudioForScenes Demo.tts Demo.env_speech_down Demo.script2
                          Demo.w0)))).
Proof.
  intros Hin.
  apply (audio_generation_then_cleanup Demo.tts Demo.env_speech_down Demo.script2 Demo.w0) in Hin.
  - destruct Hin as [Hin _]. vm_compute in Hin. discriminate.
  - vm_compute. reflexivity.
Defined.

(** ** ImageService *)

Section ImageFacts.
Variable this : ImageService.
Variable canvas : Canvas.

Lemma generateTemplateImage_run scene w :
  generateTemplateImage this canvas scene w =
    match draw_template canvas w scene with
    | inr buffer =>
        (Resolved (scene_image_path this (Scene.id scene)),
         extend w [EvWriteFile (scene_image_path this (Scene.id scene)) buffer])
    | inl err => (Rejected err, w)
    end.
Proof. unfold generateTemplateImage. by destruct (draw_template canvas w scene). Qed.

(** One turn of the loop of generateSceneImages: the template is drawn, a
    second time after a failure, and a second failure ends the loop. *)
Lemma image_loop_cons scene rest images w :
  image_loop this canvas (scene :: rest) images w =
    let path := scene_image_path this (Scene.id scene) in
    match draw_template canvas w scene with
    | inr buffer =>
        image_loop this canvas rest (images ++ [image_record scene path])
          (extend w [EvWriteFile path buffer; EvDelay 500])
    | inl e1 =>
        match draw_template canvas (extend w [EvConsoleError e1]) scene with
        | inr buffer =>
            image_loop this canvas rest (images ++ [image_record scene path])
              (extend w [EvConsoleError e1; EvWriteFile path buffer; EvDelay 500])
        | inl e2 => (Rejected e2, extend w [EvConsoleError e1])
        end
    end.
Proof.
  cbn [image_loop]. unfold bind at 1, try_catch, bind at 1, generateSingleImage.
  rewrite generateTemplateImage_run.
  destruct (draw_template canvas w scene) as [e1|buffer]; simpl.
  - unfold bind at 1. rewrite emit_run by done. unfold bind at 1.
    rewrite generateTemplateImage_run.
    destruct (draw_template canvas (extend w [EvConsoleError e1]) scene) as [e2|buffer]; simpl.
    + done.
    + unfold bind. rewrite emit_run by done. by rewrite !extend_app.
  - unfold bind. rewrite emit_run by done. by rewrite !extend_app.
Qed.

Lemma image_loop_app before after : ∀ images w,
  image_loop this canvas (before ++ after) images w =
    match image_loop this canvas before images w with
    | (Resolved images1, w1) => image_loop this canvas after images1 w1
    | (Rejected e, w1) => (Rejected e, w1)
    end.
Proof.
  induction before as [|scene before IH]; intros images w; [done|].
  rewrite <- app_comm_cons, !image_loop_cons. cbv zeta.
  destruct (draw_template canvas w scene) as [e1|buffer]; [|apply IH].
  destruct (draw_template canvas _ scene) as [e2|buffer]; [done | apply IH].
Qed.

(** A loop that resolves has pushed the image record of each scene, in
    order, and has added their image files and no other. *)
Lemma image_loop_resolved rest : ∀ images w images' w',
  image_loop this canvas rest images w = (Resolved images', w') →
  images' = images ++ map (fun scene => image_record scene (scene_image_path this (Scene.id scene))) rest ∧
  ∀ p, p ∈ files w' ↔
       p ∈ files w ∨ p ∈ map (fun scene => scene_image_path this (Scene.id scene)) rest.
Proof.
  induction rest as [|scene rest IH]; intros images w images' w' Hloop.
  - injection Hloop as <- <-. rewrite app_nil_r. split; [done|]. intros p. simpl. set_solver.
  - rewrite image_loop_cons in Hloop. cbv zeta in Hloop.
    destruct (draw_template canvas w scene) as [e1|buffer].
    + destruct (draw_template canvas _ scene) as [e2|buffer]; [discriminate|].
      destruct (IH _ _ _ _ Hloop) as [-> Hfiles]. split; [by rewrite <- app_assoc|].
      intros p. rewrite Hfiles. unfold replay. simpl. set_solver.
    + destruct (IH _ _ _ _ Hloop) as [-> Hfiles]. split; [by rewrite <- app_assoc|].
      intros p. rewrite Hfiles. unfold replay. simpl. set_solver.
Qed.

End ImageFacts.

Lemma ImageService_cleanup_run images : ∀ w,
  ImageService_cleanup images w = (Resolved tt, extend w (map EvUnlink (image_paths images))).
Proof.
  induction images as [|image images IH]; intros w; simpl.
  - unfold ret. by rewrite extend_nil.
  - unfold bind, image_paths. simpl. destruct (Image.path image) as [p|]; simpl.
    + rewrite unlink_quiet_run, IH. by rewrite extend_cons.
    + apply IH.
Qed.

Lemma image_paths_records this scenes :
  image_paths (map (fun scene => image_record scene (scene_image_path this (Scene.id scene))) scenes) =
    map (fun scene => scene_image_path this (Scene.id scene)) scenes.
Proof.
  induction scenes as [|scene scenes IH]; [done|].
  change (image_paths (map ?f (scene :: scenes)))
    with (scene_image_path this (Scene.id scene) :: image_paths (map f scenes)).
  by rewrite IH.
Qed.

(** X11: when generateSceneImages resolves, it returns one image per scene,
    in the order of the scenes, with the scene's id, the path of the
    scene's image file and the file url of that path; the image files are
    on disk, and nothing that was on disk before is gone. *)
Theorem generateSceneImages_one_image_per_scene this canvas script w images w' :
  generateSceneImages this canvas script w = (Resolved images, w') →
  images = map (fun scene =>
                  Image.mk (Scene.id scene) (Some (scene_image_path this (Scene.id scene)))
                    ("file://" +:+ scene_image_path this (Scene.id scene)))
             (Script.scenes script) ∧
  (∀ p, p ∈ image_paths images → p ∈ files w') ∧
  (∀ p, p ∈ files w → p ∈ files w').
Proof.
  intros Hrun. apply image_loop_resolved in Hrun as [-> Hfiles]. simpl.
  split_and!; [done | |].
  - intros p Hp. apply Hfiles. right. by rewrite <- (image_paths_records this).
  - intros p Hp. apply Hfiles. by left.
Qed.

(** X12: generateSceneImages gives up on a double failure.  Its fallback is
    the very generator that failed: when the scenes before a scene were
    handled and drawing the template of the scene fails, it is drawn once
    more, and when that fails too the function rejects with the second
    error, the scenes that follow being left alone. *)
Theorem generateSceneImages_fallback_failure_rejects this canvas before scene after total
    w images w1 e1 e2 :
  image_loop this canvas before [] w = (Resolved images, w1) →
  draw_template canvas w1 scene = inl e1 →
  draw_template canvas (extend w1 [EvConsoleError e1]) scene = inl e2 →
  generateSceneImages this canvas (Script.mk (before ++ scene :: after) total) w =
    (Rejected e2, extend w1 [EvConsoleError e1]).
Proof.
  intros Hbefore Hfirst Hsecond. unfold generateSceneImages. simpl.
  rewrite image_loop_app, Hbefore, image_loop_cons. cbv zeta. by rewrite Hfirst, Hsecond.
Qed.

Lemma generateSceneImages_one_image_per_scene_witness :
  fst (generateSceneImages Sample.images Sample.canvas_ok Demo.script2 Demo.w0) =
    Resolved Demo.images12 ∧
  "/app/temp/images/scene_2.png" ∈
    files (snd (generateSceneImages Sample.images Sample.canvas_ok Demo.script2 Demo.w0)).
Proof.
  destruct (generateSceneImages_one_image_per_scene Sample.images Sample.canvas_ok Demo.script2
              Demo.w0 Demo.images12
              (snd (generateSceneImages Sample.images Sample.canvas_ok Demo.script2 Demo.w0)))
    as (_ & Hfiles & _); [vm_compute; reflexivity|].
  split; [vm_compute; reflexivity|]. apply Hfiles.
  apply (bool_decide_unpack _). vm_compute. exact I.
Defined.

Lemma generateSceneImages_fallback_failure_rejects_witness :
  fst (generateSceneImages Sample.images Sample.canvas_broken
         (Script.mk ([Demo.scene1] ++ Demo.scene2 :: []) 75) Demo.w0) =
    Rejected Sample.draw_error.
Proof.
  erewrite (generateSceneImages_fallback_failure_rejects Sample.images Sample.canvas_broken
              [Demo.scene1] Demo.scene2 [] 75 Demo.w0).
  - reflexivity.
  - vm_compute. reflexivity.
  - vm_compute. reflexivity.
  - vm_compute. reflexivity.
Defined.

Lemma encoded_indices_all images rest : ∀ i,
  Forall (fun scene => has_image images scene = true) rest →
  encoded_indices images rest i = seq i (length rest).
Proof.
  induction rest as [|scene rest IH]; intros i Hall; [done|].
  apply Forall_cons in Hall as [Hscene Hall]. simpl. rewrite Hscene. f_equal. by apply IH.
Qed.

(** X13: with the images generateSceneImages resolved with, every scene of
    the script has an image for createVideo: no scene is skipped, and the
    positions encoded are all the positions of the script. *)
Theorem generated_images_cover_every_scene this canvas script w images w' :
  generateSceneImages this canvas script w = (Resolved images, w') →
  Forall (fun scene => has_image images scene = true) (Script.scenes script) ∧
  encoded_indices images (Script.scenes script) 0 = seq 0 (length (Script.scenes script)).
Proof.
  intros Hrun. apply image_loop_resolved in Hrun as [-> _]. simpl.
  set (images := map _ (Script.scenes script)).
  assert (Hall : Forall (fun scene => has_image images scene = true) (Script.scenes script)).
  { apply Forall_forall. intros scene Hscene. unfold has_image, find_image.
    destruct (find _ images) as [img|] eqn:Hfind.
    - apply find_some in Hfind as [Hin _]. apply list_elem_of_In in Hin.
      apply list_elem_of_fmap in Hin as (scene' & -> & _). apply truthy_path_join.
    - apply find_none with (x := image_record scene (scene_image_path this (Scene.id scene)))
        in Hfind.
      + simpl in Hfind. by rewrite Z.eqb_refl in Hfind.
      + apply list_elem_of_In, list_elem_of_fmap. by exists scene. }
  split; [done | by apply encoded_indices_all].
Qed.

Lemma generated_images_cover_every_scene_witness :
  encoded_indices Demo.images12 (Script.scenes Demo.script2) 0 =
    seq 0 (length (Script.scenes Demo.script2)).
Proof.
  apply (generated_images_cover_every_scene Sample.images Sample.canvas_ok Demo.script2 Demo.w0
           Demo.images12
           (snd (generateSceneImages Sample.images Sample.canvas_ok Demo.script2 Demo.w0))).
  vm_compute. reflexivity.
Defined.

(** X14: cleanup of ImageService never rejects and unlinks the file of
    every image that has a path.  After generateSceneImages and this
    cleanup the files on disk are those from before that are not at the
    path of a scene image: no image of the run survives. *)
Theorem image_generation_then_cleanup this canvas script w images w1 :
  generateSceneImages this canvas script w = (Resolved images, w1) →
  fst (ImageService_cleanup images w1) = Resolved tt ∧
  run_events w1 (snd (ImageService_cleanup images w1)) = map EvUnlink (image_paths images) ∧
  ∀ p, p ∈ files (snd (ImageService_cleanup images w1)) ↔
       p ∈ files w ∧ p ∉ image_paths images.
Proof.
  intros Hrun. rewrite ImageService_cleanup_run. simpl. rewrite run_events_extend.
  split_and!; [done | done |]. intros p. rewrite replay_unlinks.
  apply image_loop_resolved in Hrun as [-> Hfiles]. simpl.
  rewrite Hfiles, image_paths_records. tauto.
Qed.

Lemma image_generation_then_cleanup_witness :
  "/app/temp/images/scene_1.png" ∉
    files (snd (ImageService_cleanup Demo.images12
                  (snd (generateSceneImages Sample.images Sample.canvas_ok Demo.script2
                          Demo.w0)))).
Proof.
  intros Hin.
  apply (image_generation_then_cleanup Sample.images Sample.canvas_ok Demo.script2 Demo.w0) in Hin.
  - destruct Hin as [Hin _]. vm_compute in Hin. discriminate.
  - vm_compute. reflexivity.
Defined.

(** X15: the audio file and the image file of a scene are named after the
    scene's id alone: two scenes share an audio file, or an image file,
    exactly when they have the same id. *)
Theorem scene_asset_paths_by_id (tts : TTSService) (img : ImageService) (id1 id2 : Z) :
  (scene_audio_path tts id1 = scene_audio_path tts id2 ↔ id1 = id2) ∧
  (scene_image_path img id1 = scene_image_path img id2 ↔ id1 = id2).
Proof.
  unfold scene_audio_path, scene_image_path, path_join.
  split; (split; [|by intros ->]); intros Heq;
    do 3 apply (inj (String.app _)) in Heq;
    apply append_inj_suffix in Heq; by apply (inj pretty) in Heq.
Qed.

(** ** AIService *)

Lemma map_imap_index {A B C} (g : B → C) (f : nat → A → B) (h : nat → C) (l : list A) :
  (∀ i x, g (f i x) = h i) → map g (imap f l) = map h (seq 0 (length l)).
Proof.
  revert f h. induction l as [|x l IH]; intros f h Hf; [done|].
  simpl. rewrite Hf. f_equal. rewrite <- seq_shift, map_map. apply IH.
  intros i y. apply Hf.
Qed.

Lemma map_imap_values {A B C} (g : B → C) (f : nat → A → B) (h : A → C) (l : list A) :
  (∀ i x, g (f i x) = h x) → map g (imap f l) = map h l.
Proof.
  revert f. induction l as [|x l IH]; intros f Hf; [done|].
  simpl. rewrite Hf. f_equal. apply IH. intros i y. apply Hf.
Qed.

Lemma sum_durations_app l1 l2 : sum_durations (l1 ++ l2) = sum_durations l1 + sum_durations l2.
Proof. induction l1 as [|scene l1 IH]; simpl; [done | rewrite IH; lia]. Qed.

Lemma sum_durations_constant d (l : list Scene.t) :
  Forall (fun scene => Scene.duration scene = d) l → sum_durations l = d * Z.of_nat (length l).
Proof. induction 1 as [|scene l Hd _ IH]; simpl; [lia | rewrite IH, Hd; lia]. Qed.

Lemma key_point_scenes_durations (points : list string) :
  Forall (fun scene => Scene.duration scene = 45)
    (map VisualScene.scene (imap key_point_scene points)).
Proof.
  apply Forall_forall. intros scene Hin.
  apply list_elem_of_fmap in Hin as (vs & -> & Hin).
  by apply elem_of_lookup_imap in Hin as (i & point & -> & _).
Qed.

(** X16: the script simulateScript makes has a title scene, one scene for
    each of the first five key points and a summary scene.  The ids are 1,
    then 2 and up for the key points, then 7 for the summary whatever the
    number of key points; they increase strictly, so no two scenes share an
    id. *)
Theorem simulateScript_scene_ids researchData :
  let scenes := Script.scenes (script_of (simulateScript researchData)) in
  let k := min 5 (length (Research.keyPoints researchData)) in
  length scenes = (2 + k)%nat ∧
  map Scene.id scenes = 1 :: map (fun i => Z.of_nat i + 2) (seq 0 k) ++ [7] ∧
  StronglySorted Z.lt (map Scene.id scenes) ∧
  NoDup (map Scene.id scenes).
Proof.
  cbv zeta. set (k := min 5 (length (Research.keyPoints researchData))).
  assert (Hids : map Scene.id (Script.scenes (script_of (simulateScript researchData))) =
                 1 :: map (fun i => Z.of_nat i + 2) (seq 0 k) ++ [7]).
  { unfold script_of, simulateScript. cbn [Script.scenes Generated.scenes].
    rewrite !map_map, !map_app. simpl. do 2 f_equal.
    rewrite (map_imap_index _ _ (fun i => Z.of_nat i + 2)) by done.
    by rewrite length_take. }
  assert (Hk : (k ≤ 5)%nat) by (subst k; lia).
  split_and!.
  - rewrite <- (length_map Scene.id), Hids. simpl. rewrite length_app, length_map, length_seq. simpl. lia.
  - done.
  - rewrite Hids. clear Hids.
    do 6 (destruct k as [|k]; [simpl; repeat constructor; lia|]). lia.
  - rewrite Hids. clear Hids.
    do 6 (destruct k as [|k];
          [simpl; repeat (constructor; [rewrite ?elem_of_cons, ?elem_of_nil; lia|]); constructor|]).
    lia.
Qed.

(** X17: simulateScript sets the total duration to 285 seconds, whereas its
    scenes last 60 seconds plus 45 for each key point used; the total is
    the sum of the scene durations exactly when the research data has at
    least five key points. *)
Theorem simulateScript_total_duration researchData :
  let script := script_of (simulateScript researchData) in
  Script.totalDuration script = 285 ∧
  sum_durations (Script.scenes script) =
    60 + 45 * Z.of_nat (min 5 (length (Research.keyPoints researchData))) ∧
  (Script.totalDuration script = sum_durations (Script.scenes script) ↔
   (5 ≤ length (Research.keyPoints researchData))%nat).
Proof.
  cbv zeta.
  assert (Hsum : sum_durations (Script.scenes (script_of (simulateScript researchData))) =
                 60 + 45 * Z.of_nat (min 5 (length (Research.keyPoints researchData)))).
  { unfold script_of, simulateScript. cbn [Script.scenes Generated.scenes].
    rewrite !map_app, !sum_durations_app.
    rewrite (sum_durations_constant 45 _ (key_point_scenes_durations _)).
    rewrite length_map, length_imap, length_take. simpl. lia. }
  split_and!; [done | done |]. rewrite Hsum.
  change (Script.totalDuration (script_of (simulateScript researchData))) with 285. lia.
Qed.

Lemma reduce_total_from (scenes : list VisualScene.t) : ∀ start,
  foldl (fun sum vs =>
           sum + (if Z.eqb (Scene.duration (VisualScene.scene vs)) 0
                  then 30 else Scene.duration (VisualScene.scene vs)))
        start scenes = start + reduce_total scenes.
Proof.
  unfold reduce_total. induction scenes as [|vs scenes IH]; intros start; simpl; [lia|].
  rewrite IH, (IH (0 + _)). lia.
Qed.

Lemma filter_none_true {A} (P : A → Prop) `{∀ x, Decision (P x)} (l : list A) :
  Forall (fun x => ¬ P x) l → filter P l = [].
Proof.
  induction 1 as [|x l Hx _ IH]; [done|]. by rewrite filter_cons_False.
Qed.

(** X18: the total duration createScript computes for a script of the model
    is the sum of the scene durations plus 30 seconds for every scene
    whose duration is 0; it is the sum of the scene durations when no scene
    has duration 0. *)
Theorem createScript_total_counts_zero_as_thirty title scenes researchData :
  let script := script_of (createScript true (Some (title, scenes)) researchData) in
  Script.totalDuration script =
    sum_durations (Script.scenes script) +
    30 * Z.of_nat (length (filter (fun scene => Scene.duration scene = 0) (Script.scenes script))) ∧
  (Forall (fun scene => Scene.duration scene ≠ 0) (Script.scenes script) →
   Script.totalDuration script = sum_durations (Script.scenes script)).
Proof.
  cbv zeta. unfold script_of, createScript. cbn [negb Script.totalDuration Script.scenes
    Generated.scenes Generated.totalDuration].
  assert (Htotal : reduce_total scenes =
            sum_durations (map VisualScene.scene scenes) +
            30 * Z.of_nat (length (filter (fun scene => Scene.duration scene = 0)
                                     (map VisualScene.scene scenes)))).
  { induction scenes as [|vs scenes IH]; [done|].
    unfold reduce_total. simpl. rewrite reduce_total_from, IH.
    destruct (Z.eqb_spec (Scene.duration (VisualScene.scene vs)) 0) as [Hzero | Hnonzero].
    - rewrite filter_cons_True by done. simpl length. rewrite Hzero. lia.
    - rewrite filter_cons_False by done. lia. }
  split; [done|]. intros Hnonzero. rewrite Htotal.
  rewrite (filter_none_true _ _ Hnonzero). simpl. lia.
Qed.

Lemma createScript_total_counts_zero_as_thirty_witness :
  Script.totalDuration
    (script_of (createScript true
                  (Some ("Lesson", [VisualScene.mk Demo.scene1 "" "title";
                                    VisualScene.mk Demo.scene2 "" "summary"]))
                  (simulateResearch "Lesson"))) = 75.
Proof.
  destruct (createScript_total_counts_zero_as_thirty "Lesson"
              [VisualScene.mk Demo.scene1 "" "title"; VisualScene.mk Demo.scene2 "" "summary"]
              (simulateResearch "Lesson")) as [_ Hsum].
  rewrite Hsum; [reflexivity|]. by repeat constructor.
Defined.

(** X19: without a model client, the script created for the research of any
    topic has seven scenes with the ids 1 to 7, and its total duration, 285
    seconds, is the sum of the durations of its scenes; the server shows it
    as 4:45. *)
Theorem simulated_script_is_consistent topic reply :
  let script := script_of (createScript false reply (simulateResearch topic)) in
  map Scene.id (Script.scenes script) = [1; 2; 3; 4; 5; 6; 7] ∧
  Script.totalDuration script = sum_durations (Script.scenes script) ∧
  calculateDuration (Script.totalDuration script) = "4:45".
Proof. split_and!; vm_compute; reflexivity. Qed.

Lemma length_split sep s : length (split sep s) = S (occurrences sep s).
Proof.
  induction s as [|c rest IH]; [done |].
  cbn [split occurrences]. destruct (Ascii.eqb c sep).
  - cbn [length]. by rewrite IH.
  - destruct (split sep rest) as [|piece pieces]; [done |]. exact IH.
Qed.

Section ContentScriptFacts.
Variable trim : string → string.
Variable js_length : string → nat.
Variable substring : nat → string → string.

Lemma sentence_scenes_durations count (sentences : list string) :
  Forall (fun scene => Scene.duration scene = 30)
    (map VisualScene.scene (imap (sentence_scene trim substring count) sentences)).
Proof.
  apply Forall_forall. intros scene Hin.
  apply list_elem_of_fmap in Hin as (vs & -> & Hin).
  by apply elem_of_lookup_imap in Hin as (i & sentence & -> & _).
Qed.

End ContentScriptFacts.

(** X20: the script simulateScriptFromContent makes has one scene of 30
    seconds for each of the first six sentences that are longer than 20
    characters once trimmed, with the ids 1, 2, ... in order, and its total
    duration is the sum of the durations of its scenes. *)
Theorem simulateScriptFromContent_is_consistent trim js_length substring content :
  let script := script_of (simulateScriptFromContent trim js_length substring content) in
  let n := min 6 (length (sentences_of trim js_length content)) in
  length (Script.scenes script) = n ∧
  map Scene.id (Script.scenes script) = map (fun i => Z.of_nat i + 1) (seq 0 n) ∧
  Script.totalDuration script = 30 * Z.of_nat n ∧
  Script.totalDuration script = sum_durations (Script.scenes script).
Proof.
  cbv zeta. unfold script_of, simulateScriptFromContent.
  cbn [Script.scenes Script.totalDuration Generated.scenes Generated.totalDuration].
  set (sentences := sentences_of trim js_length content).
  split_and!.
  - by rewrite length_map, length_imap, length_take.
  - rewrite map_map, (map_imap_index _ _ (fun i => Z.of_nat i + 1)) by done.
    by rewrite length_take.
  - lia.
  - rewrite (sum_durations_constant 30 _ (sentence_scenes_durations _ _ _ _)).
    rewrite length_map, length_imap, length_take. lia.
Qed.

(** X29: the key points simulateAnalysis finds in a content are the
    narrations of the first five scenes of the script
    simulateScriptFromContent makes of the same content. *)
Theorem simulateAnalysis_key_points_are_narrations trim js_length substring content :
  Analysis.keyPoints (simulateAnalysis trim js_length content) =
  take 5 (map Scene.narration
            (Script.scenes (script_of (simulateScriptFromContent trim js_length substring content)))).
Proof.
  unfold script_of, simulateScriptFromContent, simulateAnalysis.
  cbn [Analysis.keyPoints Script.scenes Generated.scenes].
  set (sentences := sentences_of trim js_length content).
  rewrite map_map, (map_imap_values _ _ trim) by done.
  change (map trim (take 6 sentences)) with (trim <$> take 6 sentences).
  change (map trim (take 5 sentences)) with (trim <$> take 5 sentences).
  by rewrite !fmap_take, take_take.
Qed.

(** X30: simulateAnalysis counts one word more than the content has
    spaces, so that an empty content has one word and every space of a run
    of spaces adds a word; the duration it suggests is twice that count,
    capped at 300 seconds. *)
Theorem simulateAnalysis_counts_spaces trim js_length content :
  let analysis := simulateAnalysis trim js_length content in
  Analysis.wordCount analysis = S (occurrences space content) ∧
  Analysis.suggestedDuration analysis =
    Z.min (2 * (Z.of_nat (occurrences space content) + 1)) 300.
Proof.
  cbv zeta. unfold simulateAnalysis. cbn [Analysis.wordCount Analysis.suggestedDuration].
  rewrite length_split. split; [done | lia].
Qed.

(** X21: content in which no sentence is longer than 20 characters once
    trimmed gives a script without scenes, and createVideo rejects such a
    script with "No valid segments created". *)
Theorem content_of_short_sentences_gives_no_video trim js_length substring content
    this env images audioFiles w :
  Forall (fun s => (js_length (trim s) ≤ 20)%nat) (split dot content) →
  Script.scenes (script_of (simulateScriptFromContent trim js_length substring content)) = [] ∧
  fst (createVideo this env
         (script_of (simulateScriptFromContent trim js_length substring content))
         images audioFiles w) = Rejected no_segments_error.
Proof.
  intros Hshort.
  assert (Hnone : sentences_of trim js_length content = []).
  { unfold sentences_of. apply filter_none_true.
    eapply Forall_impl; [exact Hshort|]. intros s Hs. simpl in Hs. lia. }
  unfold script_of, simulateScriptFromContent. rewrite Hnone. split; reflexivity.
Qed.

Lemma content_of_short_sentences_gives_no_video_witness :
  fst (createVideo Demo.svc (Demo.env_ok "run-a")
         (script_of (simulateScriptFromContent (fun s => s) String.length
                       (fun n s => String.substring 0 n s)
                       "Short. Also short. Still nothing long"))
         [] [] Demo.w0) = Rejected no_segments_error.
Proof.
  apply (content_of_short_sentences_gives_no_video (fun s => s) String.length
           (fun n s => String.substring 0 n s) "Short. Also short. Still nothing long").
  apply (bool_decide_unpack _). vm_compute. exact I.
Defined.

(** X22: the script simulateScriptFromContent makes starts with a title
    scene when it has a scene at all, and it has a summary scene exactly
    when the content has between two and six sentences longer than 20
    characters: with more than six, the sentence that would be the summary
    is cut off. *)
Theorem summary_scene_needs_at_most_six_sentences trim js_length substring content :
  let scenes := Generated.scenes (simulateScriptFromContent trim js_length substring content) in
  let count := length (sentences_of trim js_length content) in
  (∀ first, scenes !! 0%nat = Some first → VisualScene.visualType first = "title") ∧
  ("summary" ∈ map VisualScene.visualType scenes ↔ (2 ≤ count ≤ 6)%nat).
Proof.
  cbv zeta. unfold simulateScriptFromContent. cbn [Generated.scenes].
  set (sentences := sentences_of trim js_length content).
  split.
  - intros first. rewrite list_lookup_imap_Some. by intros (sentence & _ & ->).
  - assert (Htype : ∀ i sentence,
              VisualScene.visualType
                (sentence_scene trim substring (length sentences) i sentence) = "summary" ↔
              i ≠ 0%nat ∧ i = (length sentences - 1)%nat).
    { intros i sentence. unfold sentence_scene. cbn [VisualScene.visualType].
      destruct (Nat.eqb_spec i 0); [split; [done | lia]|].
      destruct (Nat.eqb_spec i (length sentences - 1)); split; try done; tauto. }
    split.
    + intros (vs & Hvs & Hin)%list_elem_of_fmap.
      apply elem_of_lookup_imap in Hin as (i & sentence & -> & Hlook).
      symmetry in Hvs. apply Htype in Hvs as [Hi0 Hlast].
      apply lookup_lt_Some in Hlook. rewrite length_take in Hlook. lia.
    + intros [Hlow Hhigh].
      destruct (lookup_lt_is_Some_2 sentences (length sentences - 1)) as [sentence Hlook];
        [lia|].
      apply list_elem_of_fmap.
      exists (sentence_scene trim substring (length sentences) (length sentences - 1) sentence).
      split.
      * symmetry. apply Htype. lia.
      * apply elem_of_lookup_imap. exists (length sentences - 1)%nat, sentence.
        split; [done|]. rewrite lookup_take_lt by lia. done.
Qed.

Lemma summary_scene_needs_at_most_six_sentences_witness :
  "summary" ∈ map VisualScene.visualType
                (Generated.scenes
                   (simulateScriptFromContent (fun s => s) String.length
                      (fun n s => String.substring 0 n s)
                      "Plants turn light into sugar. They release oxygen while doing so")).
Proof.
  destruct (summary_scene_needs_at_most_six_sentences (fun s => s) String.length
              (fun n s => String.substring 0 n s)
              "Plants turn light into sugar. They release oxygen while doing so")
    as [_ Hsummary].
  apply Hsummary. vm_compute. lia.
Defined.

(** ** Helpers of the server *)





(** ** Text wrapping of the image templates *)

Section WrapFacts.
Variable too_wide : string → bool.
Variable lineHeight : Z.

Lemma drawn_text_app calls1 calls2 :
  drawn_text (calls1 ++ calls2) = drawn_text calls1 +:+ drawn_text calls2.
Proof.
  induction calls1 as [|call calls1 IH]; [done|].
  simpl. change (drawn_text (calls1 ++ calls2)) with (drawn_text (calls1 ++ calls2)).
  unfold drawn_text in *. simpl. by rewrite IH, append_assoc.
Qed.

Lemma append_nil_r (s : string) : s +:+ "" = s.
Proof. induction s as [|c s IH]; [done|]. by rewrite append_cons, IH. Qed.

(** The loop draws the lines it completes, one line height apart, counts
    them, stops after the fourth, and loses no word before it stops: what
    was drawn, the line in progress and the words not reached make up the
    line it started with and all the words. *)
Lemma wrap_loop_spec words : ∀ n line lineY lineCount drawn line' lineY' lineCount',
  wrap_loop too_wide lineHeight words n line lineY lineCount =
    (drawn, (line', lineY', lineCount')) →
  (lineCount ≤ maxLines)%nat →
  lineCount' = (lineCount + length drawn)%nat ∧
  (lineCount' ≤ maxLines)%nat ∧
  lineY' = lineY + lineHeight * Z.of_nat (length drawn) ∧
  map snd drawn = map (fun k => lineY + lineHeight * Z.of_nat k) (seq 0 (length drawn)) ∧
  ∃ unread,
    line +:+ spaced words = drawn_text drawn +:+ line' +:+ spaced unread ∧
    ((lineCount' < maxLines)%nat → unread = []).
Proof.
  induction words as [|word rest IH];
    intros n line lineY lineCount drawn line' lineY' lineCount' Hloop Hcount; simpl in Hloop.
  - injection Hloop as <- <- <- <-. simpl. split_and!; try done; try lia.
    exists []. split; [reflexivity | done].
  - destruct (Nat.ltb_spec lineCount maxLines) as [Hlt | Hge].
    + destruct (too_wide (line +:+ word +:+ " ") && negb (Nat.eqb n 0)).
      * destruct (wrap_loop too_wide lineHeight rest (S n) (word +:+ " ")
                    (lineY + lineHeight) (S lineCount)) as [drawn0 final] eqn:Hrest.
        injection Hloop as <- ->.
        destruct (IH _ _ _ _ _ _ _ _ Hrest) as (Hc & Hmax & Hy & Hys & unread & Htext & Hall);
          [lia|].
        simpl length. split_and!; [lia | done | lia | |].
        -- simpl. f_equal; [f_equal; lia|].
           rewrite Hys, <- seq_shift, map_map. apply map_ext. intros k. lia.
        -- exists unread. split; [|done].
           change (spaced (word :: rest)) with (word +:+ " " +:+ spaced rest).
           change (drawn_text ((line, lineY) :: drawn0)) with (line +:+ drawn_text drawn0).
           by rewrite append_assoc, <- Htext, !append_assoc.
      * destruct (IH _ _ _ _ _ _ _ _ Hloop Hcount)
          as (Hc & Hmax & Hy & Hys & unread & Htext & Hall).
        split_and!; try done. exists unread. split; [|done].
        change (spaced (word :: rest)) with (word +:+ " " +:+ spaced rest).
        by rewrite <- Htext, !append_assoc.
    + injection Hloop as <- <- <- <-. simpl. split_and!; try done; try lia.
      exists (word :: rest). split; [done | lia].
Qed.

End WrapFacts.

(** X24: wrapTextModern draws at most four lines, the first at the height
    it is given and each further one a line height below the one before.
    The lines it draws, put one after the other, are the beginning of the
    words of the first 250 characters of the text, each followed by a
    space, and they are all of these words when fewer than four lines are
    drawn: it reorders and repeats nothing and drops words only at the
    end. *)
Theorem wrapTextModern_draws_a_prefix too_wide substring lineHeight text y :
  let calls := wrapTextModern too_wide substring lineHeight text y in
  let words := split space (substring 250%nat text) in
  (length calls ≤ maxLines)%nat ∧
  map snd calls = map (fun k => y + lineHeight * Z.of_nat k) (seq 0 (length calls)) ∧
  (∃ dropped, spaced words = drawn_text calls +:+ dropped) ∧
  ((length calls < maxLines)%nat → drawn_text calls = spaced words).
Proof.
  cbv zeta. unfold wrapTextModern.
  set (words := split space (substring 250%nat text)).
  destruct (wrap_loop too_wide lineHeight words 0 "" y 0) as [drawn [[line lineY] lineCount]]
    eqn:Hloop.
  destruct (wrap_loop_spec too_wide lineHeight words _ _ _ _ _ _ _ _ Hloop)
    as (Hc & Hmax & Hy & Hys & unread & Htext & Hall); [unfold maxLines; lia|].
  rewrite append_nil_l in Htext. simpl in Hc.
  destruct (Nat.ltb_spec lineCount maxLines) as [Hlt | Hge].
  - rewrite (Hall Hlt) in Htext. simpl in Htext. rewrite append_nil_r in Htext.
    assert (Htotal : drawn_text (drawn ++ [(line, lineY)]) = spaced words).
    { rewrite drawn_text_app, Htext. unfold drawn_text at 3. simpl. by rewrite append_nil_r. }
    rewrite length_app. simpl. split_and!; [lia | | |done].
    + rewrite map_app, Hys, Nat.add_1_r, seq_S, map_app. simpl. by rewrite Hy.
    + exists "". by rewrite append_nil_r.
  - split_and!; [lia | done | |].
    + exists (line +:+ spaced unread). done.
    + lia.
Qed.

Lemma wrapTextModern_draws_a_prefix_witness :
  drawn_text (wrapTextModern (fun line => (12 <? String.length line)%nat)
                (fun n s => String.substring 0 n s) 60 "the quick brown fox" 400) =
  spaced (split space "the quick brown fox").
Proof.
  destruct (wrapTextModern_draws_a_prefix (fun line => (12 <? String.length line)%nat)
              (fun n s => String.substring 0 n s) 60 "the quick brown fox" 400)
    as (_ & _ & _ & Hall).
  rewrite Hall; [reflexivity|]. vm_compute. lia.
Defined.

(** ** The streaming and download routes *)

Lemma pretty_N_char_digit (d : N) :
  (d < 10)%N → is_digit (pretty_N_char d) = true ∧ digit_value (pretty_N_char d) = Z.of_N d.
Proof.
  intros Hd.
  assert (d = 0 ∨ d = 1 ∨ d = 2 ∨ d = 3 ∨ d = 4 ∨ d = 5 ∨ d = 6 ∨ d = 7 ∨ d = 8 ∨ d = 9)%N
    as Hcases by lia.
  repeat destruct Hcases as [-> | Hcases]; try subst d; by vm_compute.
Qed.

(** Printing a positive number in front of [s] puts its decimal digits
    there: reading them back gives the number. *)
Lemma pretty_N_go_digits (x : N) : ∀ s,
  (0 < x)%N →
  starts_with_digit (pretty_N_go x s) = true ∧
  parse_digits 0 (pretty_N_go x s) = parse_digits (Z.of_N x) s ∧
  all_digits (pretty_N_go x s) = all_digits s ∧
  pretty_N_go x s = pretty_N_go x "" +:+ s.
Proof.
  induction (N.lt_wf_0 x) as [x _ IH]; intros s Hx.
  rewrite !(pretty_N_go_step x) by done.
  destruct (pretty_N_char_digit (x `mod` 10)%N) as [Hdigit Hvalue]; [by apply N.mod_lt|].
  destruct (N.eq_0_gt_0_cases (x `div` 10)) as [Hzero | Hpos].
  - rewrite Hzero, !pretty_N_go_0. simpl. rewrite Hdigit, Hvalue. split_and!; try done.
    f_equal. rewrite N.div_small_iff in Hzero by done.
    rewrite N.mod_small by done. lia.
  - destruct (IH (x `div` 10)%N (N.div_lt x 10 Hx eq_refl)
                (String (pretty_N_char (x `mod` 10)) s) Hpos) as (Hstart & Hparse & Hall & Happ).
    destruct (IH (x `div` 10)%N (N.div_lt x 10 Hx eq_refl)
                (String (pretty_N_char (x `mod` 10)) "") Hpos) as (_ & _ & _ & Happ').
    split_and!.
    + done.
    + rewrite Hparse. simpl. rewrite Hdigit, Hvalue. f_equal.
      rewrite (N.div_mod x 10) at 3 by done.
      rewrite N2Z.inj_add, N2Z.inj_mul. simpl Z.of_N. lia.
    + rewrite Hall. simpl. by rewrite Hdigit.
    + rewrite Happ, Happ', append_assoc. done.
Qed.

(** The decimal text of a natural number consists of digits, and parseInt
    reads the number back from it. *)
Lemma pretty_numeral (n : N) :
  all_digits (pretty (Z.of_N n)) = true ∧
  pretty (Z.of_N n) ≠ "" ∧
  parseInt (pretty (Z.of_N n)) = Some (Z.of_N n).
Proof.
  destruct n as [|p]; [by vm_compute|].
  change (pretty (Z.of_N (N.pos p))) with (pretty_N_go (N.pos p) "").
  destruct (pretty_N_go_digits (N.pos p) "") as (Hstart & Hparse & Hall & _); [lia|].
  split_and!; [by rewrite Hall | |].
  - intros Hempty. by rewrite Hempty in Hstart.
  - unfold parseInt. destruct (pretty_N_go (N.pos p) "") as [|c rest] eqn:Hgo; [done|].
    simpl in Hstart. cbn [skip_spaces].
    assert (Hc : is_space c = false ∧ Ascii.eqb c dash = false ∧ Ascii.eqb c plus_char = false).
    { revert Hstart. unfold is_digit, is_space.
      destruct (Ascii.eqb_spec c dash) as [-> | _]; [by vm_compute|].
      destruct (Ascii.eqb_spec c plus_char) as [-> | _]; [by vm_compute|].
      intros [H1 H2]%andb_prop. apply Nat.leb_le in H1, H2.
      split_and!; try done.
      repeat first [rewrite orb_false_iff | rewrite andb_false_iff | split].
      - right. apply Nat.leb_gt. lia.
      - apply Nat.eqb_neq. lia.
      - apply Nat.eqb_neq. lia. }
    destruct Hc as (-> & -> & ->). cbn [starts_with_digit]. rewrite Hstart, Hparse.
    simpl. f_equal; lia.
Qed.

Lemma is_digit_not_dash c : is_digit c = true → Ascii.eqb c dash = false.
Proof. destruct (Ascii.eqb_spec c dash) as [-> | _]; [by vm_compute | done]. Qed.

(** Splitting at the dash after a run of digits. *)
Lemma split_digits_dash (digits rest : string) :
  all_digits digits = true →
  split dash (digits +:+ String dash rest) = digits :: split dash rest.
Proof.
  induction digits as [|c digits IH]; intros Hall; simpl in Hall.
  - rewrite append_nil_l. reflexivity.
  - apply andb_prop in Hall as [Hc Hall]. rewrite append_cons. cbn [split].
    by rewrite (is_digit_not_dash c Hc), (IH Hall).
Qed.

Lemma split_digits (digits : string) :
  all_digits digits = true → split dash digits = [digits].
Proof.
  induction digits as [|c digits IH]; intros Hall; simpl in Hall; [done|].
  apply andb_prop in Hall as [Hc Hall]. cbn [split].
  by rewrite (is_digit_not_dash c Hc), (IH Hall).
Qed.

Lemma remove_first_prefix (pat s : string) : remove_first pat (pat +:+ s) = s.
Proof.
  assert (Hprefix : is_prefix pat (pat +:+ s) = true).
  { induction pat as [|c pat IH]; [done|]. rewrite append_cons. simpl.
    by rewrite Ascii.eqb_refl, IH. }
  assert (Hdrop : drop_chars (String.length pat) (pat +:+ s) = s).
  { induction pat as [|c pat IH]; [by destruct s|]. rewrite append_cons. simpl. apply IH.
    clear Hprefix IH. induction pat as [|c' pat IH]; [done|]. rewrite append_cons. simpl.
    by rewrite Ascii.eqb_refl, IH. }
  destruct pat as [|c pat]; [by destruct s|].
  rewrite append_cons in *. cbn [remove_first]. by rewrite Hprefix, Hdrop.
Qed.

(** The bounds read from "bytes=a-b" and from "bytes=a-". *)
Lemma parse_range_closed (a b : N) fileSize :
  parse_range ("bytes=" +:+ pretty (Z.of_N a) +:+ "-" +:+ pretty (Z.of_N b)) fileSize =
    (Some (Z.of_N a), Some (Z.of_N b)).
Proof.
  destruct (pretty_numeral a) as (Ha & _ & Hpa). destruct (pretty_numeral b) as (Hb & Hneb & Hpb).
  unfold parse_range. rewrite remove_first_prefix.
  change ("-" +:+ pretty (Z.of_N b)) with (String dash (pretty (Z.of_N b))).
  rewrite (split_digits_dash _ _ Ha), (split_digits _ Hb). cbn [nth nth_error truthy].
  rewrite Hpa, Hpb. destruct (String.eqb_spec (pretty (Z.of_N b)) ""); [done | done].
Qed.

Lemma parse_range_open (a : N) fileSize :
  parse_range ("bytes=" +:+ pretty (Z.of_N a) +:+ "-") fileSize =
    (Some (Z.of_N a), Some (fileSize - 1)).
Proof.
  destruct (pretty_numeral a) as (Ha & _ & Hpa).
  unfold parse_range. rewrite remove_first_prefix.
  change "-" with (String dash "").
  rewrite (split_digits_dash _ _ Ha). cbn [split nth nth_error truthy]. by rewrite Hpa.
Qed.

(** X25: a request for the closed range "bytes=a-b", with a and b below
    2^53 so that parseInt reads them exactly, of a video that exists is
    answered, when the stream can be opened, with status 206, with the
    range as it was asked for in Content-Range and with b - a + 1 as
    Content-Length.  The bounds are not compared with the size of the
    file or with each other. *)
Theorem closed_range_is_echoed server fsys w videoId (a b : N) :
  (a < 2 ^ 53)%N → (b < 2 ^ 53)%N →
  video_file server videoId ∈ files w →
  stream_opens fsys w (video_file server videoId) (Some (Z.of_N a), Some (Z.of_N b)) = true →
  stream_video server fsys w videoId
    (Some ("bytes=" +:+ pretty (Z.of_N a) +:+ "-" +:+ pretty (Z.of_N b))) =
  mkResponse 206
    [("Content-Range",
      "bytes " +:+ pretty (Z.of_N a) +:+ "-" +:+ pretty (Z.of_N b) +:+ "/" +:+
      pretty (file_size fsys w (video_file server videoId)));
     ("Accept-Ranges", "bytes");
     ("Content-Length", pretty (Z.of_N b - Z.of_N a + 1));
     ("Content-Type", "video/mp4")]
    (FileStream (video_file server videoId) (Some (Some (Z.of_N a), Some (Z.of_N b)))).
Proof.
  intros _ _ Hexists Hopens. unfold stream_video. cbv zeta.
  rewrite (bool_decide_eq_true_2 _ Hexists). cbn [negb truthy default].
  rewrite append_cons. cbn [String.eqb negb]. rewrite <- append_cons. unfold id.
  rewrite parse_range_closed.
  match goal with
  | |- (if ?c then _ else _) = _ => replace c with true by (symmetry; exact Hopens)
  end.
  reflexivity.
Qed.

Lemma closed_range_is_echoed_witness :
  stream_video WebSample.server WebSample.disk (snd Demo.run_ok) "run-a" (Some "bytes=0-4999") =
  mkResponse 206
    [("Content-Range", "bytes 0-4999/1000"); ("Accept-Ranges", "bytes");
     ("Content-Length", "5000"); ("Content-Type", "video/mp4")]
    (FileStream "/app/output/videos/run-a.mp4" (Some (Some 0, Some 4999))).
Proof.
  apply (closed_range_is_echoed WebSample.server WebSample.disk (snd Demo.run_ok) "run-a" 0 4999).
  - reflexivity.
  - reflexivity.
  - apply (bool_decide_unpack _). vm_compute. exact I.
  - reflexivity.
Defined.

(** X26: a request for the open range "bytes=a-", with a below 2^53, of a
    video that exists is answered, when the stream can be opened, with the last byte of the file
    as the end of the range and the size of the file less a as
    Content-Length. *)
Theorem open_range_ends_with_the_file server fsys w videoId (a : N) :
  let size := file_size fsys w (video_file server videoId) in
  (a < 2 ^ 53)%N →
  video_file server videoId ∈ files w →
  stream_opens fsys w (video_file server videoId) (Some (Z.of_N a), Some (size - 1)) = true →
  stream_video server fsys w videoId (Some ("bytes=" +:+ pretty (Z.of_N a) +:+ "-")) =
  mkResponse 206
    [("Content-Range",
      "bytes " +:+ pretty (Z.of_N a) +:+ "-" +:+ pretty (size - 1) +:+ "/" +:+ pretty size);
     ("Accept-Ranges", "bytes");
     ("Content-Length", pretty (size - 1 - Z.of_N a + 1));
     ("Content-Type", "video/mp4")]
    (FileStream (video_file server videoId) (Some (Some (Z.of_N a), Some (size - 1)))).
Proof.
  intros size _ Hexists Hopens. unfold stream_video. cbv zeta.
  rewrite (bool_decide_eq_true_2 _ Hexists). cbn [negb truthy default].
  rewrite append_cons. cbn [String.eqb negb]. rewrite <- append_cons. unfold id.
  rewrite parse_range_open.
  match goal with
  | |- (if ?c then _ else _) = _ => replace c with true by (symmetry; exact Hopens)
  end.
  reflexivity.
Qed.

Lemma open_range_ends_with_the_file_witness :
  stream_video WebSample.server WebSample.disk (snd Demo.run_ok) "run-a" (Some "bytes=200-") =
  mkResponse 206
    [("Content-Range", "bytes 200-999/1000"); ("Accept-Ranges", "bytes");
     ("Content-Length", "800"); ("Content-Type", "video/mp4")]
    (FileStream "/app/output/videos/run-a.mp4" (Some (Some 200, Some 999))).
Proof.
  apply (open_range_ends_with_the_file WebSample.server WebSample.disk (snd Demo.run_ok)
           "run-a" 200).
  - reflexivity.
  - apply (bool_decide_unpack _). vm_compute. exact I.
  - reflexivity.
Defined.

(** X27: a suffix range "bytes=-n", with n below 2^53, is not understood: its start is read as
    NaN, so that the request is answered either with the error of the
    stream that could not be opened or with a Content-Range and a
    Content-Length of NaN. *)
Theorem suffix_range_has_no_start server fsys w videoId (n : N) :
  (n < 2 ^ 53)%N →
  video_file server videoId ∈ files w →
  stream_video server fsys w videoId (Some ("bytes=-" +:+ pretty (Z.of_N n))) =
    (if stream_opens fsys w (video_file server videoId) (None, Some (Z.of_N n))
     then mkResponse 206
            [("Content-Range",
              "bytes NaN-" +:+ pretty (Z.of_N n) +:+ "/" +:+
              pretty (file_size fsys w (video_file server videoId)));
             ("Accept-Ranges", "bytes");
             ("Content-Length", "NaN");
             ("Content-Type", "video/mp4")]
            (FileStream (video_file server videoId) (Some (None, Some (Z.of_N n))))
     else internal_error).
Proof.
  intros _ Hexists. unfold stream_video. cbv zeta.
  rewrite (bool_decide_eq_true_2 _ Hexists). cbn [negb truthy default].
  rewrite append_cons. cbn [String.eqb negb]. rewrite <- append_cons. unfold id.
  assert (Hparse : parse_range ("bytes=-" +:+ pretty (Z.of_N n))
                     (file_size fsys w (video_file server videoId)) =
                   (None, Some (Z.of_N n))).
  { destruct (pretty_numeral n) as (Hn & Hne & Hpn).
    unfold parse_range.
    change ("bytes=-" +:+ pretty (Z.of_N n))
      with ("bytes=" +:+ ("" +:+ String dash (pretty (Z.of_N n)))).
    rewrite remove_first_prefix, (split_digits_dash "" _ eq_refl), (split_digits _ Hn).
    cbn [nth nth_error truthy]. rewrite Hpn.
    by destruct (String.eqb_spec (pretty (Z.of_N n)) ""). }
  rewrite Hparse. reflexivity.
Qed.

Lemma suffix_range_has_no_start_witness :
  headers (stream_video WebSample.server WebSample.disk (snd Demo.run_ok) "run-a"
             (Some "bytes=-500")) =
  [("Content-Range", "bytes NaN-500/1000"); ("Accept-Ranges", "bytes");
   ("Content-Length", "NaN"); ("Content-Type", "video/mp4")].
Proof.
  refine (f_equal headers
            (suffix_range_has_no_start WebSample.server WebSample.disk (snd Demo.run_ok)
               "run-a" 500 _ _)).
  - reflexivity.
  - apply (bool_decide_unpack _). vm_compute. exact I.
Defined.

(** X28: the video of a run of createVideo that resolves can be fetched
    under the identifier the run returned, when the server serves the
    output directory of the video service: the streaming route answers a
    request without a range with status 200 and the size of the file, and
    the download route sends the file as LearnAI_<id>.mp4. *)
Theorem created_video_is_served this env script images audioFiles w result w' server fsys :
  createVideo this env script images audioFiles w = (Resolved result, w') →
  output_path this (uuidv4 env w)
    ∉ map (segment_path this) (encoded_indices images (Script.scenes script) 0) →
  videosDir server = outputDir this →
  stream_video server fsys w' (VideoResult.videoId result) None =
    mkResponse 200
      [("Content-Length", pretty (file_size fsys w' (VideoResult.path result)));
       ("Content-Type", "video/mp4");
       ("Accept-Ranges", "bytes")]
      (FileStream (VideoResult.path result) None) ∧
  download_video server w' (VideoResult.videoId result) =
    mkResponse 200 []
      (Download (VideoResult.path result) ("LearnAI_" +:+ VideoResult.videoId result +:+ ".mp4")).
Proof.
  intros Hrun Hfresh Hdir.
  destruct (createVideo_resolved_output _ _ _ _ _ _ _ _ Hrun Hfresh) as (Hid & Hpath & Hfile).
  assert (Hserved : video_file server (VideoResult.videoId result) = VideoResult.path result).
  { unfold video_file. by rewrite Hid, Hpath, Hdir. }
  rewrite <- Hpath in Hfile.
  unfold stream_video, download_video. cbv zeta. rewrite Hserved.
  by rewrite (bool_decide_eq_true_2 _ Hfile).
Qed.

Lemma created_video_is_served_witness :
  status (stream_video WebSample.server WebSample.disk (snd Demo.run_ok)
            (VideoResult.videoId Demo.result_a) None) = 200%nat.
Proof.
  destruct (created_video_is_served Demo.svc (Demo.env_ok "run-a") Demo.script2 Demo.images12 []
              Demo.w0 Demo.result_a (snd Demo.run_ok) WebSample.server WebSample.disk)
    as [Hstream _].
  - vm_compute. reflexivity.
  - apply (bool_decide_unpack _). vm_compute. exact I.
  - reflexivity.
  - by rewrite Hstream.
Defined.
